(** * war-village-game-engine: the browser front end [crates/wv-wasm/www/main.js]

    A shallow embedding of the frame loop of [main.js] and of the functions
    it drives: [readInputs] (keyboard table to packed bit flags), the
    fixed-timestep accumulator of [loop], [updateFighterMesh] (snapshot to
    mesh colour, rotation and squash/stretch) and [updateHUD] (snapshot to
    HUD text, bars, phase overlay and the hit notification).

    Conventions of the embedding.
    - A JavaScript number that carries a duration, a fraction or a scale
      factor is an exact rational ([Q], compared with [==]); rounding of
      IEEE doubles is not part of this model.  Integers used as bit flags
      are [Z] with the 32-bit wrap-around of the JavaScript bit operators
      written out.
    - The objects used as dictionaries ([keys], [STATE_COLORS]) are finite
      maps from strings.
    - Module-level [let] variables are the fields of the record [World];
      every callback of the page is a function from [World] to [World].
    - The WASM engine is external: it is the type class [Engine], and the
      loop is defined for every instance of it. *)

From Stdlib Require Import ZArith QArith Qround Qminmax Lqa Lia String.
From stdpp Require Import gmap strings list pretty.
From Equations Require Import Equations.

Local Open Scope Z_scope.
Local Open Scope string_scope.

(** ** Keyboard and input packing (main.js, lines 105-156) *)

Module Input.

(** [const keys = {}]: key code to last seen pressed/released flag. *)
Abbreviation KeyTable := (gmap string bool).

(** [addEventListener("keydown", (e) => { keys[e.code] = true; })] *)
Definition keydown (code : string) (keys : KeyTable) : KeyTable :=
  <[code := true]> keys.

(** [addEventListener("keyup", (e) => { keys[e.code] = false; })] *)
Definition keyup (code : string) (keys : KeyTable) : KeyTable :=
  <[code := false]> keys.

(** [!!keys[code]]: a code never seen reads [undefined], which is falsy. *)
Definition pressed (keys : KeyTable) (code : string) : bool :=
  default false (keys !! code).

(** ToInt32 of the JavaScript bit operators. *)
Definition to_int32 (z : Z) : Z := (z + 2 ^ 31) mod 2 ^ 32 - 2 ^ 31.

(** [a << n] *)
Definition js_shl (a n : Z) : Z := to_int32 (Z.shiftl (to_int32 a) (n mod 32)).

(** [a | b] *)
Definition js_or (a b : Z) : Z := to_int32 (Z.lor (to_int32 a) (to_int32 b)).

(** [if (b) bits |= (1 << i);] *)
Definition or_bit (b : bool) (i : Z) (bits : Z) : Z :=
  if b then js_or bits (js_shl 1 i) else bits.

Definition readInputs (keys : KeyTable) : Z :=
  (* P1: WASD + J/K/L/Shift/Space *)
  let p1_fwd := pressed keys "KeyD" in
  let p1_back := pressed keys "KeyA" in
  let p1_left := pressed keys "KeyW" in
  let p1_right := pressed keys "KeyS" in
  let p1_light := pressed keys "KeyJ" in
  let p1_heavy := pressed keys "KeyK" in
  let p1_spec := pressed keys "KeyL" in
  let p1_block := pressed keys "ShiftLeft" in
  let p1_dash := pressed keys "Space" in
  (* P2: Arrows + Numpad 1/2/3/0/Enter *)
  let p2_fwd := pressed keys "ArrowRight" in
  let p2_back := pressed keys "ArrowLeft" in
  let p2_left := pressed keys "ArrowUp" in
  let p2_right := pressed keys "ArrowDown" in
  let p2_light := pressed keys "Numpad1" in
  let p2_heavy := pressed keys "Numpad2" in
  let p2_spec := pressed keys "Numpad3" in
  let p2_block := pressed keys "Numpad0" in
  let p2_dash := pressed keys "NumpadEnter" in
  (* Pack into u32 bitflags *)
  let bits := 0 in
  let bits := or_bit p1_fwd 0 bits in
  let bits := or_bit p1_back 1 bits in
  let bits := or_bit p1_left 2 bits in
  let bits := or_bit p1_right 3 bits in
  let bits := or_bit p1_light 4 bits in
  let bits := or_bit p1_heavy 5 bits in
  let bits := or_bit p1_spec 6 bits in
  let bits := or_bit p1_block 7 bits in
  let bits := or_bit p1_dash 8 bits in
  let bits := or_bit p2_fwd 9 bits in
  let bits := or_bit p2_back 10 bits in
  let bits := or_bit p2_left 11 bits in
  let bits := or_bit p2_right 12 bits in
  let bits := or_bit p2_light 13 bits in
  let bits := or_bit p2_heavy 14 bits in
  let bits := or_bit p2_spec 15 bits in
  let bits := or_bit p2_block 16 bits in
  let bits := or_bit p2_dash 17 bits in
  bits.

(** The layout the packed word is read against: nine actions per player,
    in this order, player 2 shifted by nine bits. *)
Inductive Player := Player1 | Player2.

Inductive Action :=
  Forward | Backward | GuardLeft | GuardRight | Light | Heavy | Special | Block | Dash.

Definition action_index (a : Action) : Z :=
  match a with
  | Forward => 0 | Backward => 1 | GuardLeft => 2 | GuardRight => 3
  | Light => 4 | Heavy => 5 | Special => 6 | Block => 7 | Dash => 8
  end.

Definition player_offset (p : Player) : Z :=
  match p with Player1 => 0 | Player2 => 9 end.

Definition bit_of (p : Player) (a : Action) : Z := player_offset p + action_index a.

(** The physical key bound to each action (the string literals of
    [readInputs]). *)
Definition key_of (p : Player) (a : Action) : string :=
  match p, a with
  | Player1, Forward => "KeyD" | Player1, Backward => "KeyA"
  | Player1, GuardLeft => "KeyW" | Player1, GuardRight => "KeyS"
  | Player1, Light => "KeyJ" | Player1, Heavy => "KeyK"
  | Player1, Special => "KeyL" | Player1, Block => "ShiftLeft"
  | Player1, Dash => "Space"
  | Player2, Forward => "ArrowRight" | Player2, Backward => "ArrowLeft"
  | Player2, GuardLeft => "ArrowUp" | Player2, GuardRight => "ArrowDown"
  | Player2, Light => "Numpad1" | Player2, Heavy => "Numpad2"
  | Player2, Special => "Numpad3" | Player2, Block => "Numpad0"
  | Player2, Dash => "NumpadEnter"
  end.

Definition all_actions : list Action :=
  [Forward; Backward; GuardLeft; GuardRight; Light; Heavy; Special; Block; Dash].

End Input.

(** ** The engine's snapshot, as the page reads it *)

Local Open Scope Q_scope.

(** A THREE.js vector / the [position] object of a fighter. *)
Module Vec3.
Record t := { x : Q; y : Q; z : Q }.
End Vec3.

(** [fighter.attack]: present only while an attack is in progress. *)
Module Attack.
Record t := { phase : string }.
End Attack.

Record Fighter := {
  fighter_id : string;
  weapon_type : string;
  health_pct : Q;
  stamina_pct : Q;
  round_wins : nat;
  position : Vec3.t;
  facing : string;
  state : string;
  attack : option Attack.t
}.

(** Index into [snap.fighters], a two-element array. *)
Inductive FighterIdx := Idx0 | Idx1.

(** The object returned by [game.tick_packed] and [game.get_snapshot].
    [fighters] always holds player 1 and player 2, in this order; [winner]
    is absent ([null] or [undefined]) or the index of one of them; the
    countdown text and the hit description are absent or strings.  The
    tags ([phase], [state], [facing], the attack phase) are strings and are
    compared as such. *)
Record Snapshot := {
  fighters : Fighter * Fighter;
  phase : string;
  current_round : nat;
  round_timer : Q;
  countdown_display : option string;
  winner : option FighterIdx;
  last_hit_info : option string
}.

(** [snap.fighters[i]] *)
Definition fighter_at (snap : Snapshot) (i : FighterIdx) : Fighter :=
  match i with Idx0 => fst (fighters snap) | Idx1 => snd (fighters snap) end.

(** Modelled from the spec: the engine crate that serialises a fighter's
    state is not part of the front end.  The spec names the nine variants
    of FighterState; the tag a snapshot carries for a variant is that name,
    as it is for every tag [main.js] compares against ("Dashing",
    "HitStun", "Knockdown", ...). *)
Inductive FighterState :=
  Idle | Moving | Attacking | Blocking | Dashing | HitStun | Airborne | Knockdown | GettingUp.

Definition state_tag (s : FighterState) : string :=
  match s with
  | Idle => "Idle" | Moving => "Moving" | Attacking => "Attacking"
  | Blocking => "Blocking" | Dashing => "Dashing" | HitStun => "HitStun"
  | Airborne => "Airborne" | Knockdown => "Knockdown" | GettingUp => "GettingUp"
  end.

(** ** Fighter meshes (main.js, lines 63-103 and 242-267) *)

Inductive MeshId := P1Mesh | P2Mesh.

(** [mesh.rotation.y] only ever receives [0] or [Math.PI]. *)
Inductive Rotation := RotZero | RotPi.

(** What [updateFighterMesh] writes on a fighter group: its position and
    rotation, and the colour and scale of its body box. *)
Record Mesh := {
  mesh_id : MeshId;
  mesh_position : Vec3.t;
  rotation_y : Rotation;
  bodyMat_color : Z;
  body_scale : Vec3.t
}.

(** State colors for fighter body; [None] is the [null] of the source
    ("use default").  The map holds the object's own properties; the names
    every object inherits ("constructor", "toString", ...) are not state
    tags and are left out. *)
Definition STATE_COLORS : gmap string (option Z) :=
  list_to_map [
    ("Idle", None);
    ("Moving", None);
    ("Attacking", Some 0xffaa00%Z);
    ("Blocking", Some 0x00aaff%Z);
    ("Dashing", Some 0x88ffaa%Z);
    ("HitStun", Some 0xff0000%Z);
    ("Airborne", Some 0xffff44%Z);
    ("Knockdown", Some 0x884400%Z);
    ("Getting Up", Some 0x886644%Z)
  ].

(** [fighter.attack && fighter.attack.phase === "Active"] *)
Definition attack_phase_is (fighter : Fighter) (tag : string) : bool :=
  match attack fighter with
  | Some a => bool_decide (Attack.phase a = tag)
  | None => false
  end.

(** A lookup in [STATE_COLORS] yields [None] for a missing key
    ([undefined]) and [Some None] for a [null] entry; [stateColor != null]
    rejects both. *)
Definition updateFighterMesh (mesh : Mesh) (fighter : Fighter) : Mesh :=
  let pos := {| Vec3.x := Vec3.x (position fighter);
                Vec3.y := Vec3.y (position fighter);
                Vec3.z := Vec3.z (position fighter) |} in
  (* Face the right direction *)
  let rot := if bool_decide (facing fighter = "Right") then RotZero else RotPi in
  (* State-based body color *)
  let defaultColor :=
    match mesh_id mesh with P1Mesh => 0x4488ff%Z | P2Mesh => 0xff4444%Z end in
  let stateColor := STATE_COLORS !! state fighter in
  let color :=
    match stateColor with
    | Some (Some c) => c
    | Some None | None => defaultColor
    end in
  (* Squash/stretch for visual feedback *)
  let scale :=
    if bool_decide (state fighter = "Dashing") then
      {| Vec3.x := 1.3; Vec3.y := 0.8; Vec3.z := 1 |}
    else if bool_decide (state fighter = "Attacking") && attack_phase_is fighter "Active" then
      {| Vec3.x := 1.1; Vec3.y := 1.05; Vec3.z := 1.1 |}
    else if bool_decide (state fighter = "HitStun") then
      {| Vec3.x := 0.9; Vec3.y := 1.1; Vec3.z := 0.9 |}
    else if bool_decide (state fighter = "Knockdown") then
      {| Vec3.x := 1.2; Vec3.y := 0.5; Vec3.z := 1 |}
    else
      {| Vec3.x := 1; Vec3.y := 1; Vec3.z := 1 |} in
  {| mesh_id := mesh_id mesh;
     mesh_position := pos;
     rotation_y := rot;
     bodyMat_color := color;
     body_scale := scale |}.

(** Names for the two fallbacks of [updateFighterMesh], used to state its
    properties: the scale of the last [else] branch and the colour each
    mesh was made with. *)
Definition unit_scale : Vec3.t := {| Vec3.x := 1; Vec3.y := 1; Vec3.z := 1 |}.

Definition base_color (mesh : Mesh) : Z :=
  match mesh_id mesh with P1Mesh => 0x4488ff%Z | P2Mesh => 0xff4444%Z end.

(** ** HUD (main.js, lines 158-240) *)

(** The properties of the HUD elements that [updateHUD] assigns.  A bar
    width is kept as the number of percent that is formatted into the
    style string, the timer as the number handed to [toFixed(1)]. *)
Record Hud := {
  p1Name_textContent : string;
  p1Health_width : Q;
  p1Health_background : string;
  p1Stamina_width : Q;
  p1Wins_textContent : string;
  p2Name_textContent : string;
  p2Health_width : Q;
  p2Health_background : string;
  p2Stamina_width : Q;
  p2Wins_textContent : string;
  round_textContent : string;
  timer_number : Q;
  phase_textContent : option string;
  phase_display : string;
  hitInfo_textContent : string;
  hitInfo_opacity : string
}.

(** The HUD elements together with the two variables [updateHUD] keeps
    between calls: [let lastHitInfo = null; let hitInfoTimer = 0;]. *)
Record HudState := {
  el : Hud;
  lastHitInfo : option string;
  hitInfoTimer : Z
}.

(** [s.repeat(n)] *)
Fixpoint js_repeat (s : string) (n : nat) : string :=
  match n with
  | O => EmptyString
  | S k => s +:+ js_repeat s k
  end.

(** Truthiness of a value that is a string, [null] or [undefined]: only a
    non-empty string is truthy. *)
Definition truthy (v : option string) : bool :=
  match v with
  | Some s => negb (bool_decide (s = EmptyString))
  | None => false
  end.

(** Phase overlay. *)
Definition phase_overlay (snap : Snapshot) (old : Hud) : option string * string :=
  if bool_decide (phase snap = "Countdown") then
    (countdown_display snap, "block")
  else if bool_decide (phase snap = "RoundOver") then
    (Some "ROUND OVER", "block")
  else if bool_decide (phase snap = "MatchOver") then
    let winnerIdx := winner snap in
    let winnerName :=
      match winnerIdx with
      | Some i => fighter_id (fighter_at snap i)
      | None => "Draw"
      end in
    (Some (winnerName +:+ " WINS!"), "block")
  else
    (phase_textContent old, "none").

(** [snap.last_hit_info && snap.last_hit_info !== lastHitInfo] *)
Definition hit_is_new (snap : Snapshot) (h : HudState) : bool :=
  truthy (last_hit_info snap) && negb (bool_decide (last_hit_info snap = lastHitInfo h)).

(** Hit info: returns the new [lastHitInfo], [hitInfoTimer],
    [el.hitInfo.textContent] and [el.hitInfo.style.opacity]. *)
Definition hit_info (snap : Snapshot) (h : HudState) : option string * Z * string * string :=
  let '(last, timer, text, opacity) :=
    if hit_is_new snap h then
      (* show for 2 seconds *)
      (last_hit_info snap, 120%Z, default EmptyString (last_hit_info snap), "1")
    else
      (lastHitInfo h, hitInfoTimer h, hitInfo_textContent (el h), hitInfo_opacity (el h)) in
  if (0 <? timer)%Z then
    let timer := (timer - 1)%Z in
    if (timer =? 0)%Z then (last, timer, text, "0") else (last, timer, text, opacity)
  else
    (last, timer, text, opacity).

(** Color health bar based on remaining health. *)
Definition health_background (f : Fighter) : string :=
  if Qlt_le_dec (health_pct f) 0.25 then "linear-gradient(180deg, #f44, #822)"
  else if Qlt_le_dec (health_pct f) 0.5 then "linear-gradient(180deg, #fc4, #862)"
  else EmptyString.

Definition updateHUD (snap : Snapshot) (h : HudState) : HudState :=
  let f1 := fighter_at snap Idx0 in
  let f2 := fighter_at snap Idx1 in
  let '(phase_text, phase_disp) := phase_overlay snap (el h) in
  let '(last, timer, hit_text, hit_opacity) := hit_info snap h in
  {| el := {|
       p1Name_textContent := "P1 " +:+ fighter_id f1 +:+ " (" +:+ weapon_type f1 +:+ ")";
       p1Health_width := health_pct f1 * 100;
       p1Stamina_width := stamina_pct f1 * 100;
       p1Wins_textContent := js_repeat "★" (round_wins f1);
       p2Name_textContent := "P2 " +:+ fighter_id f2 +:+ " (" +:+ weapon_type f2 +:+ ")";
       p2Health_width := health_pct f2 * 100;
       p2Stamina_width := stamina_pct f2 * 100;
       p2Wins_textContent := js_repeat "★" (round_wins f2);
       round_textContent := "Round " +:+ pretty (current_round snap);
       timer_number := round_timer snap;
       phase_textContent := phase_text;
       phase_display := phase_disp;
       hitInfo_textContent := hit_text;
       hitInfo_opacity := hit_opacity;
       p1Health_background := health_background f1;
       p2Health_background := health_background f2 |};
     lastHitInfo := last;
     hitInfoTimer := timer |}.

(** Successive calls of [updateHUD], one per snapshot, oldest first. *)
Definition present_all (snaps : list Snapshot) (h : HudState) : HudState :=
  foldl (fun h snap => updateHUD snap h) h snaps.

Definition alarm_gradient : string := "linear-gradient(180deg, #f44, #822)".
Definition warning_gradient : string := "linear-gradient(180deg, #fc4, #862)".

(** ** Game loop, fixed 60fps timestep (main.js, lines 269-296) *)

(** The engine behind [WasmGame]: [game.tick_packed(bits)] advances the
    simulation by one tick and returns the new snapshot,
    [game.get_snapshot()] reads the current one. *)
Class Engine (Game : Type) := {
  tick_packed : Game -> Z -> Game * Snapshot;
  get_snapshot : Game -> Snapshot
}.

(** The calls the loop makes, in the order it makes them. *)
Inductive Event :=
| EvRequestAnimationFrame
| EvReadInputs (bits : Z)
| EvTickPacked (bits : Z)
| EvRender.

(** The module-level state of the page: the engine object, the keyboard
    table, the variables of the loop, the two fighter meshes and the HUD.
    [trace] is not a variable of the page: it records, oldest first, the
    calls made so far. *)
Record World (Game : Type) := {
  game : Game;
  keys : Input.KeyTable;
  accumulator : Q;
  lastTime : Q;
  latestSnap : Snapshot;
  p1Mesh : Mesh;
  p2Mesh : Mesh;
  hud : HudState;
  trace : list Event
}.
Arguments game {Game} _.
Arguments keys {Game} _.
Arguments accumulator {Game} _.
Arguments lastTime {Game} _.
Arguments latestSnap {Game} _.
Arguments p1Mesh {Game} _.
Arguments p2Mesh {Game} _.
Arguments hud {Game} _.
Arguments trace {Game} _.

Definition TICK_MS : Q := 1000 / 60.

(** [makeFighter(color)], restricted to what [updateFighterMesh] touches. *)
Definition makeFighter (id : MeshId) (color : Z) : Mesh :=
  {| mesh_id := id;
     mesh_position := {| Vec3.x := 0; Vec3.y := 0; Vec3.z := 0 |};
     rotation_y := RotZero;
     bodyMat_color := color;
     body_scale := {| Vec3.x := 1; Vec3.y := 1; Vec3.z := 1 |} |}.

Section Loop.

Context {Game : Type} `{!Engine Game}.

(** The state after the module body has run: [accumulator = 0],
    [lastTime = performance.now()], [latestSnap = game.get_snapshot()],
    no key seen yet.  [page] is the HUD as the HTML document has it. *)
Definition init_world (g : Game) (perf_now : Q) (page : Hud)
  : World Game :=
  {| game := g;
     keys := ∅;
     accumulator := 0;
     lastTime := perf_now;
     latestSnap := get_snapshot g;
     p1Mesh := makeFighter P1Mesh 0x4488ff%Z;
     p2Mesh := makeFighter P2Mesh 0xff4444%Z;
     hud := {| el := page; lastHitInfo := None; hitInfoTimer := 0%Z |};
     trace := [] |}.

(** The body of the [while] loop:
    [const bits = readInputs(); latestSnap = game.tick_packed(bits);
     accumulator -= TICK_MS;] *)
Definition tick_once (w : World Game) : World Game :=
  let bits := Input.readInputs (keys w) in
  let r := tick_packed (game w) bits in
  {| game := fst r;
     keys := keys w;
     accumulator := accumulator w - TICK_MS;
     lastTime := lastTime w;
     latestSnap := snd r;
     p1Mesh := p1Mesh w;
     p2Mesh := p2Mesh w;
     hud := hud w;
     trace := (trace w ++ [EvReadInputs bits; EvTickPacked bits])%list |}.

(** Termination measure of the [while] loop: a tick period is longer than
    one millisecond, so the whole milliseconds left in the accumulator
    decrease with every iteration. *)
Definition tick_fuel (acc : Q) : nat := Z.to_nat (Qfloor acc).

(** [while (accumulator >= TICK_MS) { ... }] *)
Equations? while_ticks (w : World Game) : World Game
  by wf (tick_fuel (accumulator w)) lt :=
  while_ticks w with Qlt_le_dec (accumulator w) TICK_MS := {
    | left _ => w
    | right _ => while_ticks (tick_once w) }.
Proof.
  unfold tick_fuel, tick_once; cbn [accumulator].
  assert (HT : TICK_MS == 50 # 3) by reflexivity.
  pose proof (Qlt_floor (accumulator w)) as Hup.
  pose proof (Qfloor_le (accumulator w - TICK_MS)) as Hlo.
  rewrite inject_Z_plus in Hup. change (inject_Z 1) with 1 in Hup.
  assert (16 <= Qfloor (accumulator w))%Z.
  { apply Z.lt_succ_r. rewrite Zlt_Qlt, <- Z.add_1_r, inject_Z_plus.
    change (inject_Z 16) with 16. change (inject_Z 1) with 1. lra. }
  assert (Qfloor (accumulator w - TICK_MS) < Qfloor (accumulator w))%Z
    by (rewrite Zlt_Qlt; lra).
  lia.
Qed.

(** [function loop(now)] *)
Definition loop (now : Q) (w : World Game) : World Game :=
  (* requestAnimationFrame(loop) *)
  let tr := (trace w ++ [EvRequestAnimationFrame])%list in
  (* cap to avoid spiral of death *)
  let dt := Qmin (now - lastTime w) 100 in
  let w1 :=
    {| game := game w;
       keys := keys w;
       accumulator := accumulator w + dt;
       lastTime := now;
       latestSnap := latestSnap w;
       p1Mesh := p1Mesh w;
       p2Mesh := p2Mesh w;
       hud := hud w;
       trace := tr |} in
  let w2 := while_ticks w1 in
  (* Render with latest snapshot *)
  {| game := game w2;
     keys := keys w2;
     accumulator := accumulator w2;
     lastTime := lastTime w2;
     latestSnap := latestSnap w2;
     p1Mesh := updateFighterMesh (p1Mesh w2) (fighter_at (latestSnap w2) Idx0);
     p2Mesh := updateFighterMesh (p2Mesh w2) (fighter_at (latestSnap w2) Idx1);
     hud := updateHUD (latestSnap w2) (hud w2);
     trace := (trace w2 ++ [EvRender])%list |}.

(** The callbacks the page registers; the host runs one at a time. *)
Inductive Callback :=
| OnKeyDown (code : string)
| OnKeyUp (code : string)
| OnFrame (now : Q).

Definition with_keys (f : Input.KeyTable -> Input.KeyTable) (w : World Game)
  : World Game :=
  {| game := game w;
     keys := f (keys w);
     accumulator := accumulator w;
     lastTime := lastTime w;
     latestSnap := latestSnap w;
     p1Mesh := p1Mesh w;
     p2Mesh := p2Mesh w;
     hud := hud w;
     trace := trace w |}.

Definition dispatch (cb : Callback) (w : World Game) : World Game :=
  match cb with
  | OnKeyDown code => with_keys (Input.keydown code) w
  | OnKeyUp code => with_keys (Input.keyup code) w
  | OnFrame now => loop now w
  end.

(** A session: the callbacks in the order the host delivers them. *)
Definition run (cbs : list Callback) (w : World Game) : World Game :=
  foldl (fun w cb => dispatch cb w) w cbs.

End Loop.

(** ** Vocabulary for the properties of the loop *)

(** The number of whole tick periods contained in an amount of time (none
    in a negative amount). *)
Definition full_periods (acc : Q) : nat := Z.to_nat (Qfloor (acc / TICK_MS)).

(** A number of ticks as a number of milliseconds. *)
Definition ticks_ms (n : nat) : Q := inject_Z (Z.of_nat n) * TICK_MS.

(** The calls made by [n] iterations of the [while] loop when each
    [readInputs()] returns [bits]. *)
Fixpoint tick_events (bits : Z) (n : nat) : list Event :=
  match n with
  | O => []
  | S k => EvReadInputs bits :: EvTickPacked bits :: tick_events bits k
  end.

(** The engine and the snapshot it last returned after [n] more ticks with
    input [bits]. *)
Definition engine_after {Game} `{Engine Game} (n : nat) (bits : Z) (gs : Game * Snapshot)
  : Game * Snapshot :=
  Nat.iter n (fun gs => tick_packed (fst gs) bits) gs.

(** How often the trace calls [game.tick_packed] and [readInputs]. *)
Fixpoint engine_calls (tr : list Event) : nat :=
  match tr with
  | [] => O
  | EvTickPacked _ :: rest => S (engine_calls rest)
  | _ :: rest => engine_calls rest
  end.

Fixpoint input_samples (tr : list Event) : nat :=
  match tr with
  | [] => O
  | EvReadInputs _ :: rest => S (input_samples rest)
  | _ :: rest => input_samples rest
  end.


(** ** Concrete values used to exercise the definitions *)

(** The two fighters of the page, [new WasmGame("Kael", "Knight")], in a
    given state. *)
Definition fighter_in (id tag : string) (atk : option Attack.t) (health : Q) : Fighter :=
  {| fighter_id := id;
     weapon_type := "Sword";
     health_pct := health;
     stamina_pct := 1;
     round_wins := 0;
     position := {| Vec3.x := 0; Vec3.y := 0; Vec3.z := 0 |};
     facing := "Right";
     state := tag;
     attack := atk |}.

Definition snapshot_in (ph : string) (f1 f2 : Fighter) (cd : option string)
    (win : option FighterIdx) (hit : option string) : Snapshot :=
  {| fighters := (f1, f2);
     phase := ph;
     current_round := 1;
     round_timer := 60;
     countdown_display := cd;
     winner := win;
     last_hit_info := hit |}.

Definition idle_snapshot (ph : string) (hit : option string) : Snapshot :=
  snapshot_in ph (fighter_in "Kael" "Idle" None 1) (fighter_in "Knight" "Idle" None 1)
    None None hit.

Definition blank_hud : Hud :=
  {| p1Name_textContent := EmptyString;
     p1Health_width := 100;
     p1Health_background := EmptyString;
     p1Stamina_width := 100;
     p1Wins_textContent := EmptyString;
     p2Name_textContent := EmptyString;
     p2Health_width := 100;
     p2Health_background := EmptyString;
     p2Stamina_width := 100;
     p2Wins_textContent := EmptyString;
     round_textContent := EmptyString;
     timer_number := 0;
     phase_textContent := Some EmptyString;
     phase_display := "none";
     hitInfo_textContent := EmptyString;
     hitInfo_opacity := "0" |}.

Definition blank_hud_state : HudState :=
  {| el := blank_hud; lastHitInfo := None; hitInfoTimer := 0%Z |}.

(** A stub engine: its state is the list of the packed inputs it was
    ticked with, latest first; every snapshot it returns is the same
    fighting-phase snapshot. *)
#[local] Instance stub_engine : Engine (list Z) :=
  {| tick_packed := fun g bits => (bits :: g, idle_snapshot "Fighting" None);
     get_snapshot := fun _ => idle_snapshot "Fighting" None |}.

(** The page right after start-up, on the stub engine, with the clock at 0. *)
Definition stub_world : World (list Z) := init_world [] 0 blank_hud.

(** ** Vocabulary for the properties of the key table, the palette and sessions *)

(** The eighteen key codes that [readInputs] reads, in the order of the
    bits they set. *)
Definition key_order : list string :=
  ["KeyD"; "KeyA"; "KeyW"; "KeyS"; "KeyJ"; "KeyK"; "KeyL"; "ShiftLeft"; "Space";
   "ArrowRight"; "ArrowLeft"; "ArrowUp"; "ArrowDown";
   "Numpad1"; "Numpad2"; "Numpad3"; "Numpad0"; "NumpadEnter"].

(** The packing statements of [readInputs] as a loop over their flags:
    [if (b) bits |= (1 << k)] for the flags [bs], the first at bit [k]. *)
Fixpoint pack_from (k : Z) (bs : list bool) (bits : Z) : Z :=
  match bs with
  | [] => bits
  | b :: rest => pack_from (k + 1)%Z rest (Input.or_bit b k bits)
  end.

(** The number whose binary digits, from position [k] upwards, are [bs]. *)
Fixpoint weighted_sum (k : Z) (bs : list bool) : Z :=
  match bs with
  | [] => 0%Z
  | b :: rest => ((if b then 2 ^ k else 0) + weighted_sum (k + 1) rest)%Z
  end.

(** One player's nine flags as a number below 512, forward at bit 0. *)
Definition player_word (p : Input.Player) (keys : Input.KeyTable) : Z :=
  weighted_sum 0 (Input.pressed keys <$> (Input.key_of p <$> Input.all_actions)).

(** What [readInputs] returns when [code] is the only key down. *)
Definition key_mask (code : string) : Z := Input.readInputs (Input.keydown code ∅).

(** Whether the last key event for [code] among the callbacks was a
    keydown; [init] when there was none. *)
Fixpoint last_key_event (code : string) (cbs : list Callback) (init : bool) : bool :=
  match cbs with
  | [] => init
  | OnKeyDown c :: rest =>
      last_key_event code rest (if bool_decide (c = code) then true else init)
  | OnKeyUp c :: rest =>
      last_key_event code rest (if bool_decide (c = code) then false else init)
  | OnFrame _ :: rest => last_key_event code rest init
  end.




(** How many frames the host delivers in a session. *)
Fixpoint frames_in (cbs : list Callback) : nat :=
  match cbs with
  | [] => O
  | OnFrame _ :: rest => S (frames_in rest)
  | _ :: rest => frames_in rest
  end.

(** How often the trace calls [requestAnimationFrame] and
    [renderer.render]. *)
Fixpoint raf_requests (tr : list Event) : nat :=
  match tr with
  | [] => O
  | EvRequestAnimationFrame :: rest => S (raf_requests rest)
  | _ :: rest => raf_requests rest
  end.

Fixpoint renders (tr : list Event) : nat :=
  match tr with
  | [] => O
  | EvRender :: rest => S (renders rest)
  | _ :: rest => renders rest
  end.

(** Feeding an engine the packed inputs that a trace logged, in order. *)
Definition replay {Game} `{Engine Game} (tr : list Event) (gs : Game * Snapshot)
  : Game * Snapshot :=
  foldl (fun gs e =>
           match e with
           | EvTickPacked bits => tick_packed (fst gs) bits
           | _ => gs
           end) gs tr.

(** What holds of the hit notification between calls of [updateHUD], for a
    HUD whose document started with opacity [o0] and text [x0]: the
    countdown is between 0 and 119; while it runs the notification is
    opaque; once it is at 0 the notification is transparent, or nothing
    was ever shown; the retained description is never the empty string and
    is the text on display. *)
Definition hit_inv (o0 x0 : string) (h : HudState) : Prop :=
  (0 <= hitInfoTimer h <= 119)%Z /\
  ((0 < hitInfoTimer h)%Z -> hitInfo_opacity (el h) = "1" /\ lastHitInfo h <> None) /\
  (hitInfoTimer h = 0%Z ->
     hitInfo_opacity (el h) = "0" \/
     (lastHitInfo h = None /\ hitInfo_opacity (el h) = o0)) /\
  (forall d, lastHitInfo h = Some d -> d <> EmptyString /\ hitInfo_textContent (el h) = d) /\
  (lastHitInfo h = None -> hitInfo_textContent (el h) = x0).

(** A logged call carries a packed word of eighteen flags. *)
Definition packed_ok (e : Event) : Prop :=
  match e with
  | EvReadInputs bits | EvTickPacked bits => (0 <= bits < 2 ^ 18)%Z
  | _ => True
  end.

(** * Properties *)

(** ** Input packing *)

Section InputFacts.

Import Input.

Local Open Scope Z_scope.

Lemma to_int32_id (n : Z) : - 2 ^ 31 <= n < 2 ^ 31 -> to_int32 n = n.
Proof. intros Hn. unfold to_int32. rewrite Z.mod_small; lia. Qed.

Lemma lt_pow2_18_log2 (n : Z) : 0 <= n -> n < 2 ^ 18 <-> Z.log2 n < 18.
Proof.
  intros Hn. destruct (Z.eq_dec n 0) as [-> | Hne].
  - cbn. lia.
  - apply Z.log2_lt_pow2. lia.
Qed.

Lemma lor_below_pow2_18 (a b : Z) :
  0 <= a < 2 ^ 18 -> 0 <= b < 2 ^ 18 -> 0 <= Z.lor a b < 2 ^ 18.
Proof.
  intros [Ha0 Ha] [Hb0 Hb].
  assert (H0 : 0 <= Z.lor a b) by (apply Z.lor_nonneg; lia).
  split; [exact H0 |].
  apply lt_pow2_18_log2; [exact H0 |].
  rewrite Z.log2_lor by lia.
  apply lt_pow2_18_log2 in Ha, Hb; lia.
Qed.

Lemma js_shl_1 (i : Z) : 0 <= i < 18 -> js_shl 1 i = 2 ^ i /\ 0 <= 2 ^ i < 2 ^ 18.
Proof.
  intros Hi.
  assert (Hp : 0 <= 2 ^ i < 2 ^ 18).
  { split; [apply Z.pow_nonneg; lia | apply Z.pow_lt_mono_r; lia]. }
  split; [| exact Hp].
  unfold js_shl. rewrite (to_int32_id 1) by lia.
  rewrite Z.mod_small by lia. rewrite Z.shiftl_1_l.
  apply to_int32_id. lia.
Qed.

(** On the eighteen flag positions the 32-bit wrap-around never fires:
    one packing statement is a plain bitwise or with a power of two. *)
Lemma or_bit_plain (b : bool) (i bits : Z) :
  0 <= i < 18 -> 0 <= bits < 2 ^ 18 ->
  or_bit b i bits = (if b then Z.lor bits (2 ^ i) else bits) /\
  0 <= or_bit b i bits < 2 ^ 18.
Proof.
  intros Hi Hbits. unfold or_bit. destruct b; [| split; [reflexivity | exact Hbits]].
  destruct (js_shl_1 i Hi) as [-> Hp].
  pose proof (lor_below_pow2_18 bits (2 ^ i) Hbits Hp) as Hl.
  assert (E : js_or bits (2 ^ i) = Z.lor bits (2 ^ i)).
  { unfold js_or. rewrite (to_int32_id bits), (to_int32_id (2 ^ i)) by lia.
    apply to_int32_id. lia. }
  rewrite E. split; [reflexivity | exact Hl].
Qed.

Lemma or_bit_range (b : bool) (i bits : Z) :
  0 <= i < 18 -> 0 <= bits < 2 ^ 18 -> 0 <= or_bit b i bits < 2 ^ 18.
Proof. intros Hi Hbits. apply or_bit_plain; assumption. Qed.

Lemma or_bit_testbit (b : bool) (i bits j : Z) :
  0 <= i < 18 -> 0 <= bits < 2 ^ 18 ->
  Z.testbit (or_bit b i bits) j = (b && (i =? j)) || Z.testbit bits j.
Proof.
  intros Hi Hbits. destruct (or_bit_plain b i bits Hi Hbits) as [-> _].
  destruct b; cbn [andb orb]; [| reflexivity].
  rewrite Z.lor_spec, Z.pow2_bits_eqb by lia. apply orb_comm.
Qed.

Ltac flag_range := repeat (apply or_bit_range; [lia |]); lia.

Lemma readInputs_range (keys : KeyTable) : 0 <= readInputs keys < 2 ^ 18.
Proof. unfold readInputs. flag_range. Qed.

(** Bit [j] of the packed word, for every [j]: the disjunction over the
    eighteen packing statements. *)
Lemma readInputs_testbit (keys : KeyTable) (j : Z) :
  Z.testbit (readInputs keys) j =
    (pressed keys "NumpadEnter" && (17 =? j)) || ((pressed keys "Numpad0" && (16 =? j)) ||
    ((pressed keys "Numpad3" && (15 =? j)) || ((pressed keys "Numpad2" && (14 =? j)) ||
    ((pressed keys "Numpad1" && (13 =? j)) || ((pressed keys "ArrowDown" && (12 =? j)) ||
    ((pressed keys "ArrowUp" && (11 =? j)) || ((pressed keys "ArrowLeft" && (10 =? j)) ||
    ((pressed keys "ArrowRight" && (9 =? j)) || ((pressed keys "Space" && (8 =? j)) ||
    ((pressed keys "ShiftLeft" && (7 =? j)) || ((pressed keys "KeyL" && (6 =? j)) ||
    ((pressed keys "KeyK" && (5 =? j)) || ((pressed keys "KeyJ" && (4 =? j)) ||
    ((pressed keys "KeyS" && (3 =? j)) || ((pressed keys "KeyW" && (2 =? j)) ||
    ((pressed keys "KeyA" && (1 =? j)) || ((pressed keys "KeyD" && (0 =? j)) ||
    false))))))))))))))))).
Proof.
  unfold readInputs.
  repeat (rewrite or_bit_testbit; [| lia | flag_range]).
  rewrite Z.bits_0. reflexivity.
Qed.

Lemma readInputs_bit (keys : KeyTable) (p : Player) (a : Action) :
  Z.testbit (readInputs keys) (bit_of p a) = pressed keys (key_of p a).
Proof.
  rewrite readInputs_testbit.
  destruct p, a; cbn;
    rewrite ?andb_false_r, ?andb_true_r, ?orb_false_r, ?orb_false_l; reflexivity.
Qed.

Lemma bit_of_cover (j : Z) : 0 <= j < 18 -> exists p a, j = bit_of p a.
Proof.
  intros Hj.
  destruct (Z.lt_ge_cases j 9) as [Hlo | Hhi].
  - exists Player1.
    assert (C : j = 0 \/ j = 1 \/ j = 2 \/ j = 3 \/ j = 4 \/ j = 5 \/ j = 6 \/ j = 7 \/ j = 8)
      by lia.
    decompose [or] C; subst j;
      [ exists Forward | exists Backward | exists GuardLeft | exists GuardRight
      | exists Light | exists Heavy | exists Special | exists Block | exists Dash ];
      reflexivity.
  - exists Player2.
    assert (C : j = 9 \/ j = 10 \/ j = 11 \/ j = 12 \/ j = 13 \/ j = 14 \/ j = 15
                \/ j = 16 \/ j = 17) by lia.
    decompose [or] C; subst j;
      [ exists Forward | exists Backward | exists GuardLeft | exists GuardRight
      | exists Light | exists Heavy | exists Special | exists Block | exists Dash ];
      reflexivity.
Qed.

Lemma readInputs_high_bits (keys : KeyTable) (j : Z) :
  18 <= j -> Z.testbit (readInputs keys) j = false.
Proof.
  intros Hj. rewrite readInputs_testbit.
  repeat match goal with
         | |- context [(?k =? j)] =>
             replace (k =? j) with false by (symmetry; apply Z.eqb_neq; lia)
         end.
  rewrite ?andb_false_r. reflexivity.
Qed.

Lemma pressed_keydown_only (c k : string) :
  pressed (keydown c ∅) k = bool_decide (c = k).
Proof.
  unfold pressed, keydown. rewrite lookup_insert.
  destruct (decide (c = k)) as [E | N].
  - rewrite bool_decide_eq_true_2 by exact E. reflexivity.
  - rewrite bool_decide_eq_false_2 by exact N. rewrite lookup_empty. reflexivity.
Qed.

Lemma key_of_inj (p p' : Player) (a a' : Action) :
  key_of p a = key_of p' a' -> p = p' /\ a = a'.
Proof. destruct p, a, p', a'; cbn; intros E; first [ discriminate E | split; reflexivity ]. Qed.

Lemma bit_of_inj (p p' : Player) (a a' : Action) :
  bit_of p a = bit_of p' a' -> p = p' /\ a = a'.
Proof. destruct p, a, p', a'; cbn; intros E; first [ discriminate E | split; reflexivity ]. Qed.

(** C3. The input encoder is a function of the key table that depends only
    on the pressed state of the eighteen bound keys (identical key state,
    identical word); bit [9 * player + action] of the word is the state of
    the key bound to that action, with the actions in the order forward,
    backward, guard-left, guard-right, light, heavy, special, block, dash at
    offsets 0 to 8 for player 1 and 9 to 17 for player 2, and no bit above
    17 is ever set; two distinct physical keys never set the same bit; with
    no bound key pressed the word is 0; and with only player 1's light
    attack key down the word is exactly [1 << 4]. *)
Theorem readInputs_encoding :
  (forall keys1 keys2 : KeyTable,
      (forall p a, pressed keys1 (key_of p a) = pressed keys2 (key_of p a)) ->
      readInputs keys1 = readInputs keys2) /\
  (forall (keys : KeyTable) p a,
      Z.testbit (readInputs keys) (bit_of p a) = pressed keys (key_of p a)) /\
  (forall keys : KeyTable, 0 <= readInputs keys < 2 ^ 18) /\
  bit_of Player1 <$> all_actions = [0; 1; 2; 3; 4; 5; 6; 7; 8] /\
  bit_of Player2 <$> all_actions = [9; 10; 11; 12; 13; 14; 15; 16; 17] /\
  (forall p p' a a', (p, a) <> (p', a') ->
      key_of p a <> key_of p' a' /\ bit_of p a <> bit_of p' a') /\
  (forall c1 c2 : string, c1 <> c2 ->
      Z.land (readInputs (keydown c1 ∅)) (readInputs (keydown c2 ∅)) = 0) /\
  (forall keys : KeyTable,
      (forall p a, pressed keys (key_of p a) = false) -> readInputs keys = 0) /\
  readInputs ∅ = 0 /\
  readInputs (keydown "KeyJ" ∅) = Z.shiftl 1 4.
Proof.
  assert (Hdet : forall keys1 keys2 : KeyTable,
             (forall p a, pressed keys1 (key_of p a) = pressed keys2 (key_of p a)) ->
             readInputs keys1 = readInputs keys2).
  { intros keys1 keys2 Hsame. apply Z.bits_inj'. intros j Hj.
    destruct (Z.lt_ge_cases j 18) as [Hlo | Hhi].
    - destruct (bit_of_cover j (conj Hj Hlo)) as (p & a & ->).
      rewrite !readInputs_bit. apply Hsame.
    - rewrite !readInputs_high_bits by exact Hhi. reflexivity. }
  repeat split.
  - exact Hdet.
  - apply readInputs_bit.
  - apply readInputs_range.
  - apply readInputs_range.
  - intros E. apply key_of_inj in E. destruct E; subst. contradiction.
  - intros E. apply bit_of_inj in E. destruct E; subst. contradiction.
  - intros c1 c2 Hne. apply Z.bits_inj'. intros j Hj.
    rewrite Z.land_spec, Z.bits_0.
    destruct (Z.lt_ge_cases j 18) as [Hlo | Hhi].
    + destruct (bit_of_cover j (conj Hj Hlo)) as (p & a & ->).
      rewrite !readInputs_bit, !pressed_keydown_only.
      destruct (decide (c1 = key_of p a)) as [E1 | N1].
      * rewrite (bool_decide_eq_false_2 (c2 = key_of p a)) by congruence.
        apply andb_false_r.
      * rewrite (bool_decide_eq_false_2 (c1 = key_of p a)) by exact N1.
        reflexivity.
    + rewrite (readInputs_high_bits _ j Hhi). reflexivity.
  - intros keys Hnone. apply Z.bits_inj'. intros j Hj. rewrite Z.bits_0.
    destruct (Z.lt_ge_cases j 18) as [Hlo | Hhi].
    + destruct (bit_of_cover j (conj Hj Hlo)) as (p & a & ->).
      rewrite readInputs_bit. apply Hnone.
    + apply readInputs_high_bits. exact Hhi.
Qed.

Lemma readInputs_encoding_witness :
  readInputs (keyup "KeyJ" (keydown "KeyD" ∅)) = readInputs (keydown "KeyD" ∅) /\
  (key_of Player1 Light <> key_of Player2 Light /\
   bit_of Player1 Light <> bit_of Player2 Light) /\
  Z.land (readInputs (keydown "KeyD" ∅)) (readInputs (keydown "KeyA" ∅)) = 0 /\
  readInputs (keydown "F1" ∅) = 0.
Proof.
  destruct readInputs_encoding as (Hdet & _ & _ & _ & _ & Hinj & Hdis & Hnone & _).
  split; [| split; [| split]].
  - apply Hdet. intros p a. destruct p, a; reflexivity.
  - apply Hinj. discriminate.
  - apply Hdis. discriminate.
  - apply Hnone. intros p a. destruct p, a; reflexivity.
Defined.

End InputFacts.

(** ** Fighter meshes: tint and squash/stretch *)

Section MeshFacts.

Local Open Scope Q_scope.

Lemma color_of_lookup (mesh : Mesh) (fighter : Fighter) :
  bodyMat_color (updateFighterMesh mesh fighter) =
    match STATE_COLORS !! state fighter with
    | Some (Some c) => c
    | _ => base_color mesh
    end.
Proof.
  unfold updateFighterMesh, base_color; cbn [bodyMat_color].
  destruct (STATE_COLORS !! state fighter) as [[c |] |]; reflexivity.
Qed.

(** The tint of each tag that is a key of [STATE_COLORS]. *)
Lemma state_tints (mesh : Mesh) (fighter : Fighter) :
  let color := bodyMat_color (updateFighterMesh mesh fighter) in
  (state fighter = "Idle" -> color = base_color mesh) /\
  (state fighter = "Moving" -> color = base_color mesh) /\
  (state fighter = "Attacking" -> color = 0xffaa00%Z) /\
  (state fighter = "Blocking" -> color = 0x00aaff%Z) /\
  (state fighter = "Dashing" -> color = 0x88ffaa%Z) /\
  (state fighter = "HitStun" -> color = 0xff0000%Z) /\
  (state fighter = "Airborne" -> color = 0xffff44%Z) /\
  (state fighter = "Knockdown" -> color = 0x884400%Z) /\
  (state fighter = "Getting Up" -> color = 0x886644%Z).
Proof.
  cbv zeta. rewrite color_of_lookup.
  repeat split; intros ->; reflexivity.
Qed.


Lemma scale_default (mesh : Mesh) (fighter : Fighter) :
  state fighter <> "Dashing" ->
  state fighter <> "Attacking" \/ attack_phase_is fighter "Active" = false ->
  state fighter <> "HitStun" ->
  state fighter <> "Knockdown" ->
  body_scale (updateFighterMesh mesh fighter) = unit_scale.
Proof.
  intros Hd Ha Hh Hk. unfold updateFighterMesh; cbn [body_scale].
  rewrite (bool_decide_eq_false_2 _ Hd), (bool_decide_eq_false_2 _ Hh),
    (bool_decide_eq_false_2 _ Hk).
  destruct Ha as [Ha | Ha].
  - rewrite (bool_decide_eq_false_2 _ Ha). reflexivity.
  - rewrite Ha, andb_false_r. reflexivity.
Qed.

(** C7 (as amended). For every FighterState and optional attack info the
    body scale is: Dashing, stretched forward and compressed vertically
    (1.3, 0.8, 1); Attacking in the Active phase, a slight expansion on all
    three axes, by 1.1 on the two horizontal axes and by 1.05 vertically;
    HitStun, compressed horizontally and stretched vertically
    (0.9, 1.1, 0.9); Knockdown, strongly compressed vertically
    (1.2, 0.5, 1); every other state, Attacking outside the Active phase
    included, the unit scale (1, 1, 1). *)
Theorem body_scale_by_state (mesh : Mesh) (fighter : Fighter) (s : FighterState) :
  state fighter = state_tag s ->
  let scale := body_scale (updateFighterMesh mesh fighter) in
  (s = Dashing ->
     scale = {| Vec3.x := 1.3; Vec3.y := 0.8; Vec3.z := 1 |} /\
     1 < Vec3.x scale /\ Vec3.y scale < 1) /\
  (s = Attacking -> attack_phase_is fighter "Active" = true ->
     scale = {| Vec3.x := 1.1; Vec3.y := 1.05; Vec3.z := 1.1 |} /\
     1 < Vec3.x scale <= 1.1 /\ 1 < Vec3.y scale <= 1.1 /\ 1 < Vec3.z scale <= 1.1) /\
  (s = HitStun ->
     scale = {| Vec3.x := 0.9; Vec3.y := 1.1; Vec3.z := 0.9 |} /\
     Vec3.x scale < 1 /\ Vec3.z scale < 1 /\ 1 < Vec3.y scale) /\
  (s = Knockdown ->
     scale = {| Vec3.x := 1.2; Vec3.y := 0.5; Vec3.z := 1 |} /\
     Vec3.y scale <= 0.5) /\
  (s <> Dashing -> s <> HitStun -> s <> Knockdown ->
   (s = Attacking -> attack_phase_is fighter "Active" = false) ->
     scale = unit_scale).
Proof.
  intros Hs scale. subst scale.
  split; [| split; [| split; [| split]]].
  - intros ->. unfold updateFighterMesh; cbn [body_scale]. rewrite Hs.
    split; [reflexivity | split; reflexivity].
  - intros -> Hact. unfold updateFighterMesh; cbn [body_scale]. rewrite Hs, Hact.
    split; [reflexivity |]. vm_compute. intuition congruence.
  - intros ->. unfold updateFighterMesh; cbn [body_scale]. rewrite Hs.
    split; [reflexivity | repeat split; reflexivity].
  - intros ->. unfold updateFighterMesh; cbn [body_scale]. rewrite Hs.
    split; [reflexivity |]. vm_compute. congruence.
  - intros Hd Hh Hk Ha. apply scale_default; rewrite Hs.
    + destruct s; cbn; congruence.
    + destruct s; cbn; try (left; congruence). right. apply Ha. reflexivity.
    + destruct s; cbn; congruence.
    + destruct s; cbn; congruence.
Qed.

Lemma body_scale_by_state_witness :
  body_scale (updateFighterMesh (makeFighter P1Mesh 0x4488ff%Z)
                (fighter_in "Kael" "Dashing" None 1))
  = {| Vec3.x := 1.3; Vec3.y := 0.8; Vec3.z := 1 |}.
Proof.
  apply (body_scale_by_state (makeFighter P1Mesh 0x4488ff%Z)
           (fighter_in "Kael" "Dashing" None 1) Dashing); reflexivity.
Defined.

(** C7, as first stated, asks for the same factor on all three axes while
    attacking in the Active phase; the body scale set there is
    (1.1, 1.05, 1.1). *)
Lemma active_attack_scale_not_uniform :
  state (fighter_in "Kael" "Attacking" (Some {| Attack.phase := "Active" |}) 1)
    = state_tag Attacking /\
  attack_phase_is
    (fighter_in "Kael" "Attacking" (Some {| Attack.phase := "Active" |}) 1) "Active" = true /\
  ~ (exists k : Q,
        body_scale (updateFighterMesh (makeFighter P1Mesh 0x4488ff%Z)
                      (fighter_in "Kael" "Attacking" (Some {| Attack.phase := "Active" |}) 1))
        = {| Vec3.x := k; Vec3.y := k; Vec3.z := k |}).
Proof.
  split; [reflexivity | split; [reflexivity |]].
  intros [k Hk]. vm_compute in Hk. congruence.
Qed.

(** C8 (the code at the failing input). A fighter whose state tag is
    GettingUp keeps the base colour of its mesh: the tint [0x886644] is
    filed in [STATE_COLORS] under the key "Getting Up", which the tag
    "GettingUp" does not match. *)
Theorem getting_up_keeps_base_color (mesh : Mesh) (fighter : Fighter) :
  state fighter = state_tag GettingUp ->
  bodyMat_color (updateFighterMesh mesh fighter) = base_color mesh /\
  bodyMat_color (updateFighterMesh mesh fighter) <> 0x886644%Z.
Proof.
  intros Hs. rewrite color_of_lookup, Hs.
  split; [reflexivity |]. destruct mesh as [[] ? ? ? ?]; vm_compute; discriminate.
Qed.

Lemma getting_up_keeps_base_color_witness :
  bodyMat_color (updateFighterMesh (makeFighter P1Mesh 0x4488ff%Z)
                   (fighter_in "Kael" "GettingUp" None 1)) = 0x4488ff%Z.
Proof.
  apply (getting_up_keeps_base_color (makeFighter P1Mesh 0x4488ff%Z)
           (fighter_in "Kael" "GettingUp" None 1)). reflexivity.
Defined.

(** The body colour for each variant of FighterState: the six tints of the
    tags that match a key, and the base colour for Idle, Moving and, its
    tag matching no key, GettingUp. *)
Lemma tint_by_state (mesh : Mesh) (fighter : Fighter) (s : FighterState) :
  state fighter = state_tag s ->
  bodyMat_color (updateFighterMesh mesh fighter) =
    match s with
    | Idle | Moving => base_color mesh
    | Attacking => 0xffaa00%Z
    | Blocking => 0x00aaff%Z
    | Dashing => 0x88ffaa%Z
    | HitStun => 0xff0000%Z
    | Airborne => 0xffff44%Z
    | Knockdown => 0x884400%Z
    | GettingUp => base_color mesh
    end.
Proof. intros Hs. rewrite color_of_lookup, Hs. destruct s; reflexivity. Qed.


End MeshFacts.

(** ** HUD *)

Section HudFacts.

Local Open Scope Q_scope.

Lemma updateHUD_backgrounds (snap : Snapshot) (h : HudState) :
  p1Health_background (el (updateHUD snap h)) = health_background (fst (fighters snap)) /\
  p2Health_background (el (updateHUD snap h)) = health_background (snd (fighters snap)).
Proof.
  unfold updateHUD.
  destruct (phase_overlay snap (el h)) as [pt pd].
  destruct (hit_info snap h) as [[[l t] ht] ho].
  split; reflexivity.
Qed.

Lemma health_background_cases (f : Fighter) :
  (health_background f = alarm_gradient <-> health_pct f < 0.25) /\
  (health_background f = warning_gradient <-> 0.25 <= health_pct f /\ health_pct f < 0.5) /\
  (health_background f = EmptyString <-> 0.5 <= health_pct f).
Proof.
  unfold health_background, alarm_gradient, warning_gradient.
  destruct (Qlt_le_dec (health_pct f) 0.25) as [Hlt | Hge];
    [| destruct (Qlt_le_dec (health_pct f) 0.5) as [Hlt2 | Hge2]].
  - repeat split; try (intros; discriminate); try (intros; reflexivity); intros; lra.
  - repeat split; try (intros; discriminate); try (intros; reflexivity);
      try assumption; intros; lra.
  - repeat split; try (intros; discriminate); try (intros; reflexivity);
      try assumption; intros; lra.
Qed.

(** C5. Each fighter's health bar is styled from that fighter's health
    alone: the alarm gradient exactly when the health fraction is below
    0.25, the warning gradient exactly when it is at least 0.25 and below
    0.5, and the default (empty) style exactly when it is at least 0.5.  A
    health of exactly 0.25 gives the warning gradient, not the alarm one;
    0.2499 gives the alarm gradient. *)
Theorem health_bar_thresholds (snap : Snapshot) (h : HudState) :
  let f1 := fst (fighters snap) in
  let f2 := snd (fighters snap) in
  let bg1 := p1Health_background (el (updateHUD snap h)) in
  let bg2 := p2Health_background (el (updateHUD snap h)) in
  ((bg1 = alarm_gradient <-> health_pct f1 < 0.25) /\
   (bg1 = warning_gradient <-> 0.25 <= health_pct f1 /\ health_pct f1 < 0.5) /\
   (bg1 = EmptyString <-> 0.5 <= health_pct f1)) /\
  ((bg2 = alarm_gradient <-> health_pct f2 < 0.25) /\
   (bg2 = warning_gradient <-> 0.25 <= health_pct f2 /\ health_pct f2 < 0.5) /\
   (bg2 = EmptyString <-> 0.5 <= health_pct f2)) /\
  (health_pct f1 == 0.25 -> bg1 <> alarm_gradient /\ bg1 = warning_gradient) /\
  (health_pct f2 == 0.25 -> bg2 <> alarm_gradient /\ bg2 = warning_gradient) /\
  (health_pct f1 == 0.2499 -> bg1 = alarm_gradient) /\
  (health_pct f2 == 0.2499 -> bg2 = alarm_gradient).
Proof.
  cbv zeta. destruct (updateHUD_backgrounds snap h) as [-> ->].
  pose proof (health_background_cases (fst (fighters snap))) as (A1 & W1 & D1).
  pose proof (health_background_cases (snd (fighters snap))) as (A2 & W2 & D2).
  split; [auto |]. split; [auto |].
  split; [| split; [| split]].
  - intros E. split.
    + intros Hb. apply A1 in Hb. lra.
    + apply W1. lra.
  - intros E. split.
    + intros Hb. apply A2 in Hb. lra.
    + apply W2. lra.
  - intros E. apply A1. lra.
  - intros E. apply A2. lra.
Qed.

Lemma health_bar_thresholds_witness :
  p1Health_background
    (el (updateHUD (snapshot_in "Fighting" (fighter_in "Kael" "Idle" None 0.25)
                      (fighter_in "Knight" "Idle" None 0.2499) None None None)
           blank_hud_state)) = warning_gradient /\
  p2Health_background
    (el (updateHUD (snapshot_in "Fighting" (fighter_in "Kael" "Idle" None 0.25)
                      (fighter_in "Knight" "Idle" None 0.2499) None None None)
           blank_hud_state)) = alarm_gradient.
Proof.
  pose proof (health_bar_thresholds
                (snapshot_in "Fighting" (fighter_in "Kael" "Idle" None 0.25)
                   (fighter_in "Knight" "Idle" None 0.2499) None None None)
                blank_hud_state) as (_ & _ & H1 & _ & _ & H2).
  split.
  - apply H1. reflexivity.
  - apply H2. reflexivity.
Defined.

Lemma updateHUD_overlay (snap : Snapshot) (h : HudState) :
  (phase_textContent (el (updateHUD snap h)), phase_display (el (updateHUD snap h)))
  = phase_overlay snap (el h).
Proof.
  unfold updateHUD.
  destruct (phase_overlay snap (el h)) as [pt pd].
  destruct (hit_info snap h) as [[[l t] ht] ho].
  reflexivity.
Qed.

Lemma updateHUD_hit (snap : Snapshot) (h : HudState) :
  (lastHitInfo (updateHUD snap h), hitInfoTimer (updateHUD snap h),
   hitInfo_textContent (el (updateHUD snap h)), hitInfo_opacity (el (updateHUD snap h)))
  = hit_info snap h.
Proof.
  unfold updateHUD.
  destruct (phase_overlay snap (el h)) as [pt pd].
  destruct (hit_info snap h) as [[[l t] ht] ho].
  reflexivity.
Qed.

Lemma overlay_visible_iff (snap : Snapshot) (h : HudState) :
  (phase_display (el (updateHUD snap h)) = "block" <->
     phase snap = "Countdown" \/ phase snap = "RoundOver" \/ phase snap = "MatchOver") /\
  (phase_display (el (updateHUD snap h)) = "none" <->
     phase snap <> "Countdown" /\ phase snap <> "RoundOver" /\ phase snap <> "MatchOver").
Proof.
  pose proof (updateHUD_overlay snap h) as E. unfold phase_overlay in E.
  repeat case_bool_decide; injection E as _ ->;
    (split; split; intros; try discriminate; try reflexivity; tauto).
Qed.

(** C6. The phase overlay is set from the snapshot's phase: Countdown
    shows it with the snapshot's countdown string, RoundOver shows it with
    the fixed text "ROUND OVER", MatchOver shows it with the winner's name
    followed by " WINS!" when a winner is given and with "Draw WINS!" when
    none is, Fighting hides it (leaving its text as it was).  Whether the
    overlay is shown depends on the phase alone, it is always either shown
    or hidden, and it is shown exactly in the three phases Countdown,
    RoundOver and MatchOver. *)
Theorem phase_overlay_by_phase (snap : Snapshot) (h : HudState) :
  let text := phase_textContent (el (updateHUD snap h)) in
  let display := phase_display (el (updateHUD snap h)) in
  (phase snap = "Countdown" -> display = "block" /\ text = countdown_display snap) /\
  (phase snap = "RoundOver" -> display = "block" /\ text = Some "ROUND OVER") /\
  (phase snap = "MatchOver" ->
     display = "block" /\
     (forall i, winner snap = Some i ->
        text = Some (fighter_id (fighter_at snap i) +:+ " WINS!")) /\
     (winner snap = None -> text = Some "Draw WINS!")) /\
  (phase snap = "Fighting" -> display = "none" /\ text = phase_textContent (el h)) /\
  (forall snap' h', phase snap' = phase snap ->
     phase_display (el (updateHUD snap' h')) = display) /\
  (display = "block" \/ display = "none") /\ "block" <> "none" /\
  (display = "block" <->
     phase snap = "Countdown" \/ phase snap = "RoundOver" \/ phase snap = "MatchOver").
Proof.
  cbv zeta.
  pose proof (updateHUD_overlay snap h) as E. unfold phase_overlay in E.
  split; [| split; [| split; [| split; [| split; [| split; [| split]]]]]].
  - intros Hp. rewrite Hp in E. cbn in E. injection E as -> ->. split; reflexivity.
  - intros Hp. rewrite Hp in E. cbn in E. injection E as -> ->. split; reflexivity.
  - intros Hp. rewrite Hp in E. cbn in E. injection E as -> ->.
    split; [reflexivity | split].
    + intros i ->. reflexivity.
    + intros ->. reflexivity.
  - intros Hp. rewrite Hp in E. cbn in E. injection E as -> ->. split; reflexivity.
  - intros snap' h' Hp.
    pose proof (updateHUD_overlay snap' h') as E'. unfold phase_overlay in E'.
    rewrite Hp in E'.
    repeat case_bool_decide; injection E as _ ->; injection E' as _ ->; reflexivity.
  - repeat case_bool_decide; injection E as _ ->; auto.
  - discriminate.
  - apply overlay_visible_iff.
Qed.

Lemma phase_overlay_by_phase_witness :
  (phase_display (el (updateHUD (snapshot_in "Countdown" (fighter_in "Kael" "Idle" None 1)
                                   (fighter_in "Knight" "Idle" None 1) (Some "3") None None)
                        blank_hud_state)) = "block" /\
   phase_textContent (el (updateHUD (snapshot_in "Countdown" (fighter_in "Kael" "Idle" None 1)
                                       (fighter_in "Knight" "Idle" None 1) (Some "3") None None)
                            blank_hud_state)) = Some "3") /\
  (phase_display (el (updateHUD (idle_snapshot "Fighting" None) blank_hud_state)) = "none" /\
   phase_textContent (el (updateHUD (idle_snapshot "Fighting" None) blank_hud_state)) = Some EmptyString) /\
  (phase_display (el (updateHUD (idle_snapshot "RoundOver" None) blank_hud_state)) = "block" /\
   phase_textContent (el (updateHUD (idle_snapshot "RoundOver" None) blank_hud_state))
   = Some "ROUND OVER") /\
  phase_textContent (el (updateHUD (idle_snapshot "MatchOver" None) blank_hud_state))
  = Some "Draw WINS!" /\
  phase_textContent (el (updateHUD (snapshot_in "MatchOver" (fighter_in "Kael" "Idle" None 1)
                                      (fighter_in "Knight" "Idle" None 1) None (Some Idx1) None)
                           blank_hud_state))
  = Some "Knight WINS!".
Proof.
  split; [| split; [| split; [| split]]].
  - apply (phase_overlay_by_phase
             (snapshot_in "Countdown" (fighter_in "Kael" "Idle" None 1)
                (fighter_in "Knight" "Idle" None 1) (Some "3") None None) blank_hud_state).
    reflexivity.
  - apply (phase_overlay_by_phase (idle_snapshot "Fighting" None) blank_hud_state).
    reflexivity.
  - apply (phase_overlay_by_phase (idle_snapshot "RoundOver" None) blank_hud_state).
    reflexivity.
  - apply (phase_overlay_by_phase (idle_snapshot "MatchOver" None) blank_hud_state);
      reflexivity.
  - pose proof (phase_overlay_by_phase
                  (snapshot_in "MatchOver" (fighter_in "Kael" "Idle" None 1)
                     (fighter_in "Knight" "Idle" None 1) None (Some Idx1) None)
                  blank_hud_state) as (_ & _ & Hm & _).
    destruct (Hm eq_refl) as (_ & Hw & _). apply (Hw Idx1). reflexivity.
Defined.

Local Open Scope Z_scope.

Lemma hit_info_new (d : string) (snap : Snapshot) (h : HudState) :
  last_hit_info snap = Some d -> truthy (Some d) = true -> lastHitInfo h <> Some d ->
  hit_is_new snap h = true /\ hit_info snap h = (Some d, 119, d, "1").
Proof.
  intros Hd Ht Hne.
  assert (Hnew : hit_is_new snap h = true).
  { unfold hit_is_new. rewrite Hd, Ht.
    rewrite bool_decide_eq_false_2 by congruence. reflexivity. }
  split; [exact Hnew |].
  unfold hit_info. rewrite Hnew, Hd. reflexivity.
Qed.

Lemma hit_info_same (d : string) (snap : Snapshot) (h : HudState) :
  last_hit_info snap = Some d -> lastHitInfo h = Some d ->
  hit_is_new snap h = false /\
  hit_info snap h =
    (Some d,
     if 0 <? hitInfoTimer h then hitInfoTimer h - 1 else hitInfoTimer h,
     hitInfo_textContent (el h),
     if hitInfoTimer h =? 1 then "0" else hitInfo_opacity (el h)).
Proof.
  intros Hd Hl.
  assert (Hold : hit_is_new snap h = false).
  { unfold hit_is_new. rewrite Hd, Hl.
    rewrite bool_decide_eq_true_2 by reflexivity. apply andb_false_r. }
  split; [exact Hold |].
  unfold hit_info. rewrite Hold, Hl.
  destruct (Z.ltb_spec 0 (hitInfoTimer h)) as [Hpos | Hnpos].
  - destruct (Z.eqb_spec (hitInfoTimer h - 1) 0) as [E0 | N0];
      destruct (Z.eqb_spec (hitInfoTimer h) 1) as [E1 | N1];
      first [ reflexivity | lia ].
  - destruct (Z.eqb_spec (hitInfoTimer h) 1) as [E1 | N1]; [lia | reflexivity].
Qed.

(** While the same description repeats, the timer only runs down. *)
Lemma present_all_same (d : string) (snaps : list Snapshot) :
  forall h : HudState,
    Forall (fun s => last_hit_info s = Some d) snaps ->
    lastHitInfo h = Some d -> 0 <= hitInfoTimer h ->
    let h' := present_all snaps h in
    let k := Z.of_nat (length snaps) in
    lastHitInfo h' = Some d /\
    hitInfoTimer h' = Z.max 0 (hitInfoTimer h - k) /\
    hitInfo_textContent (el h') = hitInfo_textContent (el h) /\
    hitInfo_opacity (el h') =
      if (0 <? hitInfoTimer h) && (hitInfoTimer h <=? k) then "0"
      else hitInfo_opacity (el h).
Proof.
  induction snaps as [| s rest IH]; intros h Hall Hl Ht; cbv zeta.
  - unfold present_all. cbn [foldl length]. change (Z.of_nat 0) with 0.
    split; [exact Hl |]. split; [lia |]. split; [reflexivity |].
    destruct (Z.ltb_spec 0 (hitInfoTimer h)); cbn [andb]; [| reflexivity].
    destruct (Z.leb_spec (hitInfoTimer h) 0); [lia | reflexivity].
  - apply Forall_cons in Hall as [Hs Hrest].
    destruct (hit_info_same d s h Hs Hl) as [_ Hstep].
    pose proof (updateHUD_hit s h) as Hu. rewrite Hstep in Hu.
    injection Hu as Hl1 Ht1 Hx1 Ho1.
    assert (Ht1' : hitInfoTimer (updateHUD s h) = Z.max 0 (hitInfoTimer h - 1)).
    { rewrite Ht1. destruct (Z.ltb_spec 0 (hitInfoTimer h)); lia. }
    change (present_all (s :: rest) h) with (present_all rest (updateHUD s h)).
    destruct (IH (updateHUD s h) Hrest Hl1 ltac:(lia)) as (I1 & I2 & I3 & I4).
    rewrite length_cons, Nat2Z.inj_succ.
    split; [exact I1 |]. split; [lia |]. split; [congruence |].
    rewrite I4, Ho1, Ht1'.
    set (t := hitInfoTimer h) in *. set (k := Z.of_nat (length rest)) in *.
    destruct (Z.ltb_spec 0 (Z.max 0 (t - 1))); destruct (Z.leb_spec (Z.max 0 (t - 1)) k);
      destruct (Z.ltb_spec 0 t); destruct (Z.leb_spec t (Z.succ k));
      destruct (Z.eqb_spec t 1); cbn [andb]; first [ reflexivity | lia ].
Qed.

(** C4. When a snapshot brings a hit description [d] that is present (a
    non-empty string) and differs from the retained one, and the snapshots
    of the following calls repeat [d]: the call at the change resets the
    countdown to 120, shows the notification with text [d], and runs the
    countdown's decrement of that same call (119 remain); none of the
    following calls resets it; after [k] of them the countdown stands at
    [max 0 (119 - k)], so it goes down by exactly one per call while above
    zero and then stays at zero; and the notification is visible while the
    countdown is above zero and invisible exactly from the call at which it
    reaches zero. *)
Theorem hit_notification_timer (d : string) (h : HudState) (snap0 : Snapshot)
    (snaps : list Snapshot) :
  last_hit_info snap0 = Some d -> truthy (Some d) = true -> lastHitInfo h <> Some d ->
  Forall (fun s => last_hit_info s = Some d) snaps ->
  let h1 := updateHUD snap0 h in
  let hk := present_all snaps h1 in
  let k := Z.of_nat (length snaps) in
  (hit_is_new snap0 h = true /\
   lastHitInfo h1 = Some d /\ hitInfoTimer h1 = 120 - 1 /\
   hitInfo_textContent (el h1) = d /\ hitInfo_opacity (el h1) = "1") /\
  (lastHitInfo hk = Some d /\ hitInfo_textContent (el hk) = d /\
   hitInfoTimer hk = Z.max 0 (119 - k) /\
   hitInfo_opacity (el hk) = (if k <? 119 then "1" else "0") /\
   (hitInfo_opacity (el hk) = "0" <-> hitInfoTimer hk = 0)) /\
  (forall s, last_hit_info s = Some d ->
     hit_is_new s hk = false /\
     (0 < hitInfoTimer hk -> hitInfoTimer (updateHUD s hk) = hitInfoTimer hk - 1) /\
     (hitInfoTimer hk = 0 -> hitInfoTimer (updateHUD s hk) = 0)).
Proof.
  intros Hd Ht Hne Hall. cbv zeta.
  destruct (hit_info_new d snap0 h Hd Ht Hne) as [Hnew Hfirst].
  pose proof (updateHUD_hit snap0 h) as Hu. rewrite Hfirst in Hu.
  injection Hu as Hl1 Ht1 Hx1 Ho1.
  destruct (present_all_same d snaps (updateHUD snap0 h) Hall Hl1 ltac:(lia))
    as (K1 & K2 & K3 & K4).
  rewrite Ht1 in K2, K4. rewrite Ho1 in K4. rewrite Hx1 in K3.
  set (k := Z.of_nat (length snaps)) in *.
  assert (Hop : hitInfo_opacity (el (present_all snaps (updateHUD snap0 h)))
                = (if k <? 119 then "1" else "0")).
  { rewrite K4. change (0 <? 119) with true. cbn [andb].
    destruct (Z.leb_spec 119 k); destruct (Z.ltb_spec k 119); first [ reflexivity | lia ]. }
  split; [| split].
  - repeat split; assumption.
  - split; [exact K1 |]. split; [exact K3 |]. split; [exact K2 |]. split; [exact Hop |].
    rewrite Hop, K2. destruct (Z.ltb_spec k 119); split; intros; first [ discriminate | lia | reflexivity ].
  - intros s Hs.
    destruct (hit_info_same d s _ Hs K1) as [Hold Hstep].
    pose proof (updateHUD_hit s (present_all snaps (updateHUD snap0 h))) as Hu2.
    rewrite Hstep in Hu2. injection Hu2 as _ Ht2 _ _.
    split; [exact Hold |]. rewrite Ht2.
    destruct (Z.ltb_spec 0 (hitInfoTimer (present_all snaps (updateHUD snap0 h))));
      split; intros; lia.
Qed.

Lemma hit_notification_timer_witness :
  hitInfoTimer (present_all (replicate 119 (idle_snapshot "Fighting" (Some "Heavy hit!")))
                  (updateHUD (idle_snapshot "Fighting" (Some "Heavy hit!")) blank_hud_state))
  = 0 /\
  hitInfo_opacity
    (el (present_all (replicate 119 (idle_snapshot "Fighting" (Some "Heavy hit!")))
           (updateHUD (idle_snapshot "Fighting" (Some "Heavy hit!")) blank_hud_state)))
  = "0" /\
  hitInfo_opacity
    (el (present_all (replicate 118 (idle_snapshot "Fighting" (Some "Heavy hit!")))
           (updateHUD (idle_snapshot "Fighting" (Some "Heavy hit!")) blank_hud_state)))
  = "1".
Proof.
  assert (Hrep : forall n, Forall (fun s => last_hit_info s = Some "Heavy hit!")
                             (replicate n (idle_snapshot "Fighting" (Some "Heavy hit!")))).
  { intros n. induction n as [| n IHn]; cbn [replicate]; constructor;
      [reflexivity | exact IHn]. }
  pose proof (hit_notification_timer "Heavy hit!" blank_hud_state
                (idle_snapshot "Fighting" (Some "Heavy hit!"))
                (replicate 119 (idle_snapshot "Fighting" (Some "Heavy hit!")))
                eq_refl eq_refl ltac:(discriminate) (Hrep 119%nat))
    as (_ & (_ & _ & T119 & O119 & _) & _).
  pose proof (hit_notification_timer "Heavy hit!" blank_hud_state
                (idle_snapshot "Fighting" (Some "Heavy hit!"))
                (replicate 118 (idle_snapshot "Fighting" (Some "Heavy hit!")))
                eq_refl eq_refl ltac:(discriminate) (Hrep 118%nat))
    as (_ & (_ & _ & _ & O118 & _) & _).
  split; [exact T119 | split; [exact O119 | exact O118]].
Defined.



End HudFacts.

(** ** The fixed-timestep loop *)

Section SchedulerFacts.

Context {Game : Type} `{!Engine Game}.

Local Open Scope Q_scope.

Lemma TICK_MS_value : TICK_MS == 50 # 3.
Proof. reflexivity. Qed.

Lemma div_TICK_MS (a : Q) : a / TICK_MS == a * (3 # 50).
Proof. unfold TICK_MS. field. Qed.

Lemma Qfloor_unique (a : Q) (n : Z) :
  inject_Z n <= a -> a < inject_Z (n + 1) -> Qfloor a = n.
Proof.
  intros Hlo Hhi. apply Z.le_antisymm.
  - apply Z.lt_succ_r. rewrite Zlt_Qlt, <- Z.add_1_r.
    eapply Qle_lt_trans; [apply Qfloor_le | exact Hhi].
  - rewrite <- (Qfloor_Z n). apply Qfloor_resp_le. exact Hlo.
Qed.


Lemma full_periods_small (a : Q) : a < TICK_MS -> full_periods a = O.
Proof.
  intros Ha. unfold full_periods.
  assert (Hz : (Qfloor (a / TICK_MS) < 1)%Z).
  { rewrite Zlt_Qlt. eapply Qle_lt_trans; [apply Qfloor_le |].
    rewrite div_TICK_MS. pose proof TICK_MS_value. change (inject_Z 1) with 1. lra. }
  lia.
Qed.

Lemma full_periods_step (a : Q) :
  TICK_MS <= a -> full_periods a = S (full_periods (a - TICK_MS)).
Proof.
  intros Ha. unfold full_periods.
  pose proof TICK_MS_value as HT.
  set (n := Qfloor ((a - TICK_MS) / TICK_MS)).
  assert (Hlo : inject_Z n <= (a - TICK_MS) / TICK_MS) by apply Qfloor_le.
  assert (Hhi : (a - TICK_MS) / TICK_MS < inject_Z (n + 1)) by apply Qlt_floor.
  assert (Hn : (0 <= n)%Z).
  { change 0%Z with (Qfloor 0). apply Qfloor_resp_le. rewrite div_TICK_MS. lra. }
  rewrite div_TICK_MS in Hlo, Hhi. rewrite inject_Z_plus in Hhi.
  change (inject_Z 1) with 1 in Hhi.
  rewrite (Qfloor_unique (a / TICK_MS) (n + 1)).
  - rewrite Z2Nat.inj_add by lia. change (Z.to_nat 1) with 1%nat. lia.
  - rewrite div_TICK_MS, inject_Z_plus. change (inject_Z 1) with 1. lra.
  - rewrite div_TICK_MS, !inject_Z_plus. change (inject_Z 1) with 1. lra.
Qed.

Lemma ticks_ms_S (n : nat) : ticks_ms (S n) == ticks_ms n + TICK_MS.
Proof.
  unfold ticks_ms. rewrite Nat2Z.inj_succ, <- Z.add_1_r, inject_Z_plus.
  change (inject_Z 1) with 1. ring.
Qed.

Lemma while_ticks_step (w : World Game) :
  while_ticks w =
    if Qlt_le_dec (accumulator w) TICK_MS then w else while_ticks (tick_once w).
Proof.
  rewrite while_ticks_equation_1. 
  destruct (Qlt_le_dec (accumulator w) TICK_MS); reflexivity.
Qed.

Lemma engine_after_S (n : nat) (bits : Z) (gs : Game * Snapshot) :
  engine_after (S n) bits gs = engine_after n bits (tick_packed (fst gs) bits).
Proof. unfold engine_after. rewrite Nat.iter_succ_r. reflexivity. Qed.

(** What the [while] loop does, in closed form: it runs exactly the whole
    tick periods held by the accumulator and leaves the rest. *)
Lemma while_ticks_spec (n : nat) :
  forall w : World Game,
    full_periods (accumulator w) = n ->
    accumulator (while_ticks w) == accumulator w - ticks_ms n /\
    accumulator (while_ticks w) < TICK_MS /\
    (0 <= accumulator w -> 0 <= accumulator (while_ticks w)) /\
    trace (while_ticks w) = (trace w ++ tick_events (Input.readInputs (keys w)) n)%list /\
    (game (while_ticks w), latestSnap (while_ticks w))
      = engine_after n (Input.readInputs (keys w)) (game w, latestSnap w) /\
    keys (while_ticks w) = keys w /\
    lastTime (while_ticks w) = lastTime w /\
    p1Mesh (while_ticks w) = p1Mesh w /\
    p2Mesh (while_ticks w) = p2Mesh w /\
    hud (while_ticks w) = hud w.
Proof.
  induction n as [| k IH]; intros w Hn; rewrite while_ticks_step;
    destruct (Qlt_le_dec (accumulator w) TICK_MS) as [Hlt | Hge].
  - cbn [tick_events engine_after Nat.iter]. rewrite app_nil_r.
    repeat split; try reflexivity; try assumption; try (intros H0; exact H0).
    unfold ticks_ms. change (inject_Z (Z.of_nat 0)) with 0. ring.
  - rewrite (full_periods_step _ Hge) in Hn. discriminate Hn.
  - rewrite (full_periods_small _ Hlt) in Hn. discriminate Hn.
  - rewrite (full_periods_step _ Hge) in Hn. injection Hn as Hk.
    destruct (IH (tick_once w) Hk) as (A & B & C & D & E & F & G & P1 & P2 & U).
    cbn [tick_once accumulator trace keys game latestSnap lastTime p1Mesh p2Mesh hud]
      in A, C, D, E, F, G, P1, P2, U.
    repeat split; try assumption.
    + rewrite A, ticks_ms_S. ring.
    + intros H0. apply C. lra.
    + rewrite D, <- app_assoc. reflexivity.
    + rewrite E, engine_after_S. cbn [fst].
      destruct (tick_packed (game w) (Input.readInputs (keys w))); reflexivity.
Qed.

Lemma engine_calls_app (a b : list Event) :
  engine_calls (a ++ b) = (engine_calls a + engine_calls b)%nat.
Proof.
  induction a as [| e a IH]; [reflexivity |].
  destruct e; cbn [app engine_calls]; rewrite IH; reflexivity.
Qed.

Lemma input_samples_app (a b : list Event) :
  input_samples (a ++ b) = (input_samples a + input_samples b)%nat.
Proof.
  induction a as [| e a IH]; [reflexivity |].
  destruct e; cbn [app input_samples]; rewrite IH; reflexivity.
Qed.

Lemma tick_events_counts (bits : Z) (n : nat) :
  engine_calls (tick_events bits n) = n /\ input_samples (tick_events bits n) = n.
Proof.
  induction n as [| n [IH1 IH2]]; [split; reflexivity |].
  cbn [tick_events engine_calls input_samples]. rewrite IH1, IH2. split; reflexivity.
Qed.

(** One frame, field by field. *)
Lemma loop_fields (now : Q) (w : World Game) :
  let total := accumulator w + Qmin (now - lastTime w) 100 in
  let n := full_periods total in
  let bits := Input.readInputs (keys w) in
  accumulator (loop now w) == total - ticks_ms n /\
  accumulator (loop now w) < TICK_MS /\
  (0 <= total -> 0 <= accumulator (loop now w)) /\
  trace (loop now w)
    = (trace w ++ EvRequestAnimationFrame :: tick_events bits n ++ [EvRender])%list /\
  (game (loop now w), latestSnap (loop now w))
    = engine_after n bits (game w, latestSnap w) /\
  keys (loop now w) = keys w /\
  lastTime (loop now w) = now /\
  p1Mesh (loop now w)
    = updateFighterMesh (p1Mesh w) (fighter_at (latestSnap (loop now w)) Idx0) /\
  p2Mesh (loop now w)
    = updateFighterMesh (p2Mesh w) (fighter_at (latestSnap (loop now w)) Idx1) /\
  hud (loop now w) = updateHUD (latestSnap (loop now w)) (hud w).
Proof.
  cbv zeta. unfold loop.
  cbn [accumulator trace game latestSnap keys lastTime p1Mesh p2Mesh hud].
  match goal with |- context [while_ticks ?w1] => set (w1' := w1) end.
  destruct (while_ticks_spec (full_periods (accumulator w1')) w1' eq_refl)
    as (A & B & C & D & E & F & G & P1 & P2 & U).
  subst w1'. cbn [accumulator trace game latestSnap keys lastTime p1Mesh p2Mesh hud] in *.
  repeat split; try assumption.
  - rewrite D, <- !app_assoc. reflexivity.
  - rewrite P1. reflexivity.
  - rewrite P2. reflexivity.
  - rewrite U. reflexivity.
Qed.

Lemma loop_calls (now : Q) (w : World Game) :
  let n := full_periods (accumulator w + Qmin (now - lastTime w) 100) in
  engine_calls (trace (loop now w)) = (engine_calls (trace w) + n)%nat /\
  input_samples (trace (loop now w)) = (input_samples (trace w) + n)%nat.
Proof.
  cbv zeta. destruct (loop_fields now w) as (_ & _ & _ & -> & _).
  rewrite engine_calls_app, input_samples_app.
  cbn [engine_calls input_samples].
  rewrite engine_calls_app, input_samples_app.
  destruct (tick_events_counts (Input.readInputs (keys w))
              (full_periods (accumulator w + Qmin (now - lastTime w) 100))) as [-> ->].
  cbn [engine_calls input_samples]. split; lia.
Qed.


Lemma run_snoc (cbs : list Callback) (cb : Callback) (w : World Game) :
  run (cbs ++ [cb]) w = dispatch cb (run cbs w).
Proof. exact (foldl_snoc (fun w cb => dispatch cb w) w cbs cb). Qed.

Lemma run_cons (cb : Callback) (cbs : list Callback) (w : World Game) :
  run (cb :: cbs) w = run cbs (dispatch cb w).
Proof. reflexivity. Qed.












End SchedulerFacts.

(** ** The loop on the stub engine *)


(** The scenario of a stub engine that records its input: with only player
    1's light attack key down, one tick period of elapsed time hands the
    engine exactly one packed word, [1 << 4]. *)
Example stub_engine_sees_light_attack :
  game (run [OnKeyDown "KeyJ"; OnFrame (50 # 3)] stub_world) = [Z.shiftl 1 4] /\
  trace (run [OnKeyDown "KeyJ"; OnFrame (50 # 3)] stub_world)
  = [EvRequestAnimationFrame; EvReadInputs 16; EvTickPacked 16; EvRender].
Proof. vm_compute. split; reflexivity. Qed.



(** * Further properties *)

(** ** The packed word as arithmetic, and the key handlers *)

Section InputTableFacts.

Import Input.

Local Open Scope Z_scope.

Lemma lor_pow2_above (bits k : Z) :
  0 <= k -> 0 <= bits < 2 ^ k -> Z.lor bits (2 ^ k) = bits + 2 ^ k.
Proof.
  intros Hk Hb. symmetry. apply Z.add_nocarry_lor.
  apply Z.bits_inj'. intros j Hj. rewrite Z.land_spec, Z.bits_0.
  destruct (Z.eq_dec k j) as [<- | Hne].
  - assert (Hf : Z.testbit bits k = false).
    { apply Z.testbit_false; [exact Hk |]. rewrite Z.div_small by lia. reflexivity. }
    rewrite Hf. reflexivity.
  - rewrite Z.pow2_bits_false by exact Hne. apply andb_false_r.
Qed.

Lemma pack_from_sum (bs : list bool) :
  forall k bits : Z,
    0 <= k -> k + Z.of_nat (length bs) <= 18 -> 0 <= bits < 2 ^ k ->
    pack_from k bs bits = bits + weighted_sum k bs /\
    0 <= bits + weighted_sum k bs < 2 ^ (k + Z.of_nat (length bs)).
Proof.
  induction bs as [| b rest IH]; intros k bits Hk Hlen Hbits.
  - cbn [pack_from weighted_sum length]. rewrite !Z.add_0_r. split; [reflexivity | lia].
  - cbn [pack_from weighted_sum length] in *. rewrite Nat2Z.inj_succ in *.
    assert (Hp : 2 ^ (k + 1) = 2 * 2 ^ k).
    { replace (k + 1) with (Z.succ k) by lia. apply Z.pow_succ_r. exact Hk. }
    assert (Hle : 2 ^ k <= 2 ^ 18) by (apply Z.pow_le_mono_r; lia).
    destruct (or_bit_plain b k bits) as [Hor _]; [lia | lia |].
    assert (Hadd : or_bit b k bits = bits + (if b then 2 ^ k else 0)).
    { rewrite Hor. destruct b; [apply lor_pow2_above; assumption | lia]. }
    destruct (IH (k + 1) (or_bit b k bits)) as [E R]; [lia | lia | |].
    + rewrite Hadd, Hp. destruct b; lia.
    + rewrite E, Hadd.
      replace (k + Z.succ (Z.of_nat (length rest)))
        with (k + 1 + Z.of_nat (length rest)) by lia.
      rewrite Hadd in R. split; [lia | lia].
Qed.

Lemma readInputs_pack (keys : KeyTable) :
  readInputs keys = pack_from 0 (pressed keys <$> key_order) 0.
Proof. reflexivity. Qed.

Lemma weighted_sum_app (l1 l2 : list bool) :
  forall k : Z,
    weighted_sum k (l1 ++ l2)%list
    = weighted_sum k l1 + weighted_sum (k + Z.of_nat (length l1)) l2.
Proof.
  induction l1 as [| b l1 IH]; intros k.
  - cbn [app weighted_sum length]. rewrite Z.add_0_r. reflexivity.
  - cbn [app weighted_sum length]. rewrite IH, Nat2Z.inj_succ.
    replace (k + 1 + Z.of_nat (length l1)) with (k + Z.succ (Z.of_nat (length l1))) by lia.
    lia.
Qed.

Lemma weighted_sum_shift (l : list bool) :
  forall k : Z, 0 <= k -> weighted_sum k l = 2 ^ k * weighted_sum 0 l.
Proof.
  induction l as [| b l IH]; intros k Hk.
  - cbn [weighted_sum]. lia.
  - cbn [weighted_sum]. rewrite (IH (k + 1)) by lia. rewrite (IH (0 + 1)) by lia.
    replace (k + 1) with (Z.succ k) by lia. rewrite Z.pow_succ_r by exact Hk.
    change (2 ^ (0 + 1)) with 2. change (2 ^ 0) with 1. destruct b; lia.
Qed.

Lemma weighted_sum_range (l : list bool) :
  0 <= weighted_sum 0 l < 2 ^ Z.of_nat (length l).
Proof.
  induction l as [| b l IH].
  - cbn. lia.
  - cbn [weighted_sum length]. rewrite (weighted_sum_shift l (0 + 1)) by lia.
    rewrite Nat2Z.inj_succ, Z.pow_succ_r by lia.
    change (2 ^ (0 + 1)) with 2. change (2 ^ 0) with 1. destruct b; lia.
Qed.

(** X1. The word that [readInputs] builds with [|=] and [<<] is the sum of
    the powers of two of the pressed keys, the i-th key of the table
    (KeyD, KeyA, KeyW, KeyS, KeyJ, KeyK, KeyL, ShiftLeft, Space, then
    ArrowRight ... NumpadEnter) weighing [2 ^ i]: the 32-bit wrap-around
    of the bit operators never takes part. *)
Theorem readInputs_is_sum (keys : KeyTable) :
  readInputs keys = weighted_sum 0 (pressed keys <$> key_order) /\
  key_order = ((key_of Player1 <$> all_actions) ++ (key_of Player2 <$> all_actions))%list /\
  (forall i code, key_order !! i = Some code ->
     Z.testbit (readInputs keys) (Z.of_nat i) = pressed keys code).
Proof.
  split; [| split; [reflexivity |]].
  - rewrite readInputs_pack.
    destruct (pack_from_sum (pressed keys <$> key_order) 0 0) as [E _];
      [lia | cbn; lia | cbn; lia |].
    rewrite E. lia.
  - intros i code Hi.
    assert (Hlt : (i < 18)%nat) by (apply lookup_lt_Some in Hi; exact Hi).
    do 18 (destruct i as [| i]; [injection Hi as <-; first
      [ apply (readInputs_bit keys Player1 Forward)
      | apply (readInputs_bit keys Player1 Backward)
      | apply (readInputs_bit keys Player1 GuardLeft)
      | apply (readInputs_bit keys Player1 GuardRight)
      | apply (readInputs_bit keys Player1 Light)
      | apply (readInputs_bit keys Player1 Heavy)
      | apply (readInputs_bit keys Player1 Special)
      | apply (readInputs_bit keys Player1 Block)
      | apply (readInputs_bit keys Player1 Dash)
      | apply (readInputs_bit keys Player2 Forward)
      | apply (readInputs_bit keys Player2 Backward)
      | apply (readInputs_bit keys Player2 GuardLeft)
      | apply (readInputs_bit keys Player2 GuardRight)
      | apply (readInputs_bit keys Player2 Light)
      | apply (readInputs_bit keys Player2 Heavy)
      | apply (readInputs_bit keys Player2 Special)
      | apply (readInputs_bit keys Player2 Block)
      | apply (readInputs_bit keys Player2 Dash) ] |]).
    lia.
Qed.

Lemma readInputs_is_sum_witness :
  Z.testbit (readInputs (keydown "Space" ∅)) 8 = true.
Proof.
  destruct (readInputs_is_sum (keydown "Space" ∅)) as (_ & _ & Hbit).
  apply (Hbit 8%nat "Space"). reflexivity.
Defined.

(** X2. The two players' flags sit side by side and are laid out alike:
    the word is player 1's nine-flag number plus 512 times player 2's,
    each below 512; masking with 511 gives back player 1's number and
    shifting right by 9 gives back player 2's; and when player 2 holds the
    keys of the same actions as player 1, the two numbers are equal. *)
Theorem readInputs_player_words (keys : KeyTable) :
  readInputs keys = player_word Player1 keys + 2 ^ 9 * player_word Player2 keys /\
  (forall p, 0 <= player_word p keys < 2 ^ 9) /\
  Z.land (readInputs keys) 511 = player_word Player1 keys /\
  Z.shiftr (readInputs keys) 9 = player_word Player2 keys /\
  (forall keys' : KeyTable,
     (forall a, pressed keys' (key_of Player2 a) = pressed keys (key_of Player1 a)) ->
     player_word Player2 keys' = player_word Player1 keys).
Proof.
  assert (Hr : forall p, 0 <= player_word p keys < 2 ^ 9).
  { intros p. unfold player_word.
    pose proof (weighted_sum_range (pressed keys <$> (key_of p <$> all_actions))) as R.
    rewrite !length_fmap in R. exact R. }
  assert (Hsum : readInputs keys
                 = player_word Player1 keys + 2 ^ 9 * player_word Player2 keys).
  { rewrite readInputs_pack.
    destruct (pack_from_sum (pressed keys <$> key_order) 0 0) as [E _];
      [lia | cbn; lia | cbn; lia |].
    rewrite E, Z.add_0_l.
    change key_order
      with ((key_of Player1 <$> all_actions) ++ (key_of Player2 <$> all_actions))%list.
    rewrite fmap_app, weighted_sum_app, !length_fmap.
    rewrite (weighted_sum_shift _ (0 + Z.of_nat (length all_actions))) by lia.
    reflexivity. }
  split; [exact Hsum |]. split; [exact Hr |].
  pose proof (Hr Player1) as R1. pose proof (Hr Player2) as R2.
  split; [| split].
  - change 511 with (Z.ones 9). rewrite Z.land_ones by lia. rewrite Hsum.
    rewrite (Z.mul_comm (2 ^ 9)), Z_mod_plus_full. apply Z.mod_small. exact R1.
  - rewrite Z.shiftr_div_pow2 by lia. rewrite Hsum.
    rewrite (Z.mul_comm (2 ^ 9)), Z.div_add by lia.
    rewrite Z.div_small by exact R1. reflexivity.
  - intros keys' Hsame. unfold player_word. cbn [all_actions fmap list_fmap].
    rewrite !Hsame. reflexivity.
Qed.

Lemma readInputs_player_words_witness :
  player_word Player2 (keydown "Numpad1" ∅) = player_word Player1 (keydown "KeyJ" ∅).
Proof.
  destruct (readInputs_player_words (keydown "KeyJ" ∅)) as (_ & _ & _ & _ & Hsame).
  apply Hsame. intros a. destruct a; reflexivity.
Defined.

Lemma pressed_keydown (c k : string) (keys : KeyTable) :
  pressed (keydown c keys) k = bool_decide (c = k) || pressed keys k.
Proof.
  unfold pressed, keydown. rewrite lookup_insert.
  destruct (decide (c = k)) as [E | N].
  - rewrite bool_decide_eq_true_2 by exact E. reflexivity.
  - rewrite bool_decide_eq_false_2 by exact N. reflexivity.
Qed.

Lemma pressed_keyup (c k : string) (keys : KeyTable) :
  pressed (keyup c keys) k = negb (bool_decide (c = k)) && pressed keys k.
Proof.
  unfold pressed, keyup. rewrite lookup_insert.
  destruct (decide (c = k)) as [E | N].
  - rewrite bool_decide_eq_true_2 by exact E. reflexivity.
  - rewrite bool_decide_eq_false_2 by exact N. reflexivity.
Qed.

(** Two words agree as soon as they agree on the eighteen flag bits. *)
Lemma flag_bits_inj (keys : KeyTable) (n : Z) :
  (forall p a, Z.testbit n (bit_of p a) = pressed keys (key_of p a)) ->
  (forall j, 18 <= j -> Z.testbit n j = false) ->
  readInputs keys = n.
Proof.
  intros Hlow Hhigh. apply Z.bits_inj'. intros j Hj.
  destruct (Z.lt_ge_cases j 18) as [Hlo | Hhi].
  - destruct (bit_of_cover j (conj Hj Hlo)) as (p & a & ->).
    rewrite readInputs_bit, Hlow. reflexivity.
  - rewrite readInputs_high_bits, Hhigh by exact Hhi. reflexivity.
Qed.

Lemma readInputs_ext (keys1 keys2 : KeyTable) :
  (forall p a, pressed keys1 (key_of p a) = pressed keys2 (key_of p a)) ->
  readInputs keys1 = readInputs keys2.
Proof.
  intros Hsame. apply flag_bits_inj.
  - intros p a. rewrite readInputs_bit. symmetry. apply Hsame.
  - intros j Hj. apply readInputs_high_bits. exact Hj.
Qed.

Lemma key_mask_bit (c : string) (p : Player) (a : Action) :
  Z.testbit (key_mask c) (bit_of p a) = bool_decide (c = key_of p a).
Proof. unfold key_mask. rewrite readInputs_bit. apply pressed_keydown_only. Qed.

(** X3. A keydown of a key adds that key's own bit to the word the next
    [readInputs] returns and touches no other bit; a keyup removes it and
    touches no other bit; the bit of the key bound to an action is
    [2 ^ (9 * player + action)], and a key that is bound to no action has
    no bit, so its events never change the word. *)
Theorem key_events_set_and_clear (keys : KeyTable) (code : string) :
  readInputs (keydown code keys) = Z.lor (readInputs keys) (key_mask code) /\
  readInputs (keyup code keys) = Z.ldiff (readInputs keys) (key_mask code) /\
  (forall p a, key_mask (key_of p a) = 2 ^ bit_of p a) /\
  ((forall p a, code <> key_of p a) ->
     key_mask code = 0 /\
     readInputs (keydown code keys) = readInputs keys /\
     readInputs (keyup code keys) = readInputs keys).
Proof.
  assert (Hdown : readInputs (keydown code keys) = Z.lor (readInputs keys) (key_mask code)).
  { apply flag_bits_inj.
    - intros p a. rewrite Z.lor_spec, readInputs_bit, key_mask_bit, pressed_keydown.
      apply orb_comm.
    - intros j Hj. rewrite Z.lor_spec. unfold key_mask.
      rewrite !readInputs_high_bits by exact Hj. reflexivity. }
  assert (Hup : readInputs (keyup code keys) = Z.ldiff (readInputs keys) (key_mask code)).
  { apply flag_bits_inj.
    - intros p a. rewrite Z.ldiff_spec, readInputs_bit, key_mask_bit, pressed_keyup.
      apply andb_comm.
    - intros j Hj. rewrite Z.ldiff_spec.
      rewrite (readInputs_high_bits keys j Hj). reflexivity. }
  split; [exact Hdown |]. split; [exact Hup |]. split.
  - intros p a. destruct p, a; vm_compute; reflexivity.
  - intros Hfree.
    assert (H0 : key_mask code = 0).
    { unfold key_mask. rewrite <- (readInputs_ext ∅ (keydown code ∅)); [reflexivity |].
      intros p a. rewrite pressed_keydown_only.
      rewrite bool_decide_eq_false_2 by apply Hfree. reflexivity. }
    split; [exact H0 |].
    rewrite Hdown, Hup, H0, Z.lor_0_r, Z.ldiff_0_r. split; reflexivity.
Qed.

Lemma key_events_set_and_clear_witness :
  readInputs (keydown "Escape" (keydown "KeyK" ∅)) = readInputs (keydown "KeyK" ∅).
Proof.
  destruct (key_events_set_and_clear (keydown "KeyK" ∅) "Escape") as (_ & _ & _ & Hfree).
  apply Hfree. intros p a. destruct p, a; discriminate.
Defined.

End InputTableFacts.

(** ** Palette and scale of the meshes *)

Section MeshRangeFacts.

Local Open Scope Q_scope.




End MeshRangeFacts.

(** ** The hit notification over arbitrary snapshots *)

Section HitFacts.

Local Open Scope Z_scope.

Lemma present_all_snoc (snaps : list Snapshot) (s : Snapshot) (h : HudState) :
  present_all (snaps ++ [s]) h = updateHUD s (present_all snaps h).
Proof. exact (foldl_snoc (fun h snap => updateHUD snap h) h snaps s). Qed.

(** The two ways one call can treat the notification. *)
Lemma hit_info_cases (snap : Snapshot) (h : HudState) :
  (hit_is_new snap h = true /\
   exists d, last_hit_info snap = Some d /\ d <> EmptyString /\
             hit_info snap h = (Some d, 119, d, "1")) \/
  (hit_is_new snap h = false /\
   hit_info snap h =
     (lastHitInfo h,
      if 0 <? hitInfoTimer h then hitInfoTimer h - 1 else hitInfoTimer h,
      hitInfo_textContent (el h),
      if hitInfoTimer h =? 1 then "0" else hitInfo_opacity (el h))).
Proof.
  destruct (hit_is_new snap h) eqn:Hnew.
  - left. split; [reflexivity |].
    pose proof Hnew as Ht. unfold hit_is_new in Ht. apply andb_true_iff in Ht as [Ht _].
    destruct (last_hit_info snap) as [d |] eqn:Hd; [| discriminate Ht].
    exists d. split; [reflexivity |]. split.
    + intros ->. discriminate Ht.
    + unfold hit_info. rewrite Hnew, Hd. reflexivity.
  - right. split; [reflexivity |].
    unfold hit_info. rewrite Hnew.
    destruct (Z.ltb_spec 0 (hitInfoTimer h)) as [Hpos | Hnpos].
    + destruct (Z.eqb_spec (hitInfoTimer h - 1) 0) as [E0 | N0];
        destruct (Z.eqb_spec (hitInfoTimer h) 1) as [E1 | N1];
        first [ reflexivity | lia ].
    + destruct (Z.eqb_spec (hitInfoTimer h) 1) as [E1 | N1]; [lia | reflexivity].
Qed.

Lemma hit_inv_step (o0 x0 : string) (snap : Snapshot) (h : HudState) :
  hit_inv o0 x0 h -> hit_inv o0 x0 (updateHUD snap h).
Proof.
  intros (R & Run & Zero & Txt & Non).
  pose proof (updateHUD_hit snap h) as Hu.
  destruct (hit_info_cases snap h) as [(_ & d & Hd & Hne & E) | (_ & E)];
    rewrite E in Hu; injection Hu as Hl Ht Hx Ho; unfold hit_inv;
    rewrite Hl, Ht, Hx, Ho.
  - split; [lia |]. split; [intros _; split; [reflexivity | discriminate] |].
    split; [intros H; lia |]. split; [| intros H; discriminate H].
    intros d0 H. injection H as <-. split; [exact Hne | reflexivity].
  - assert (Hkeep : forall d0, lastHitInfo h = Some d0 ->
                      d0 <> EmptyString /\ hitInfo_textContent (el h) = d0)
      by exact Txt.
    destruct (Z.ltb_spec 0 (hitInfoTimer h)) as [Hpos | Hnpos];
      destruct (Z.eqb_spec (hitInfoTimer h) 1) as [E1 | N1]; try lia.
    + split; [lia |]. split; [intros H; lia |].
      split; [intros _; left; reflexivity |]. split; [exact Hkeep | exact Non].
    + destruct (Run Hpos) as [Hop Hsome].
      split; [lia |]. split; [intros _; split; assumption |].
      split; [intros H; lia |]. split; [exact Hkeep | exact Non].
    + assert (H0 : hitInfoTimer h = 0) by lia.
      split; [lia |]. split; [intros H; lia |].
      split; [intros _; apply Zero; exact H0 |]. split; [exact Hkeep | exact Non].
Qed.

(** X5. From a page whose countdown is 0 and which retains no
    description, whatever snapshots the engine produces and in whatever
    order: the countdown stays between 0 and 119; the notification is
    opaque whenever the countdown is above 0; when the countdown is 0 the
    notification has been made transparent, unless nothing was ever shown;
    and the retained description, once there is one, is never the empty
    string and is exactly the text on display. *)
Theorem hit_notification_invariant (snaps : list Snapshot) (h0 : HudState) :
  hitInfoTimer h0 = 0 -> lastHitInfo h0 = None ->
  hit_inv (hitInfo_opacity (el h0)) (hitInfo_textContent (el h0)) (present_all snaps h0).
Proof.
  intros Ht Hl.
  induction snaps as [| s snaps IH] using rev_ind.
  - unfold present_all; cbn [foldl]. unfold hit_inv. rewrite Ht, Hl.
    repeat split; try lia; try discriminate; auto.
  - rewrite present_all_snoc. apply hit_inv_step. exact IH.
Qed.

Lemma hit_notification_invariant_witness :
  hit_inv "0" EmptyString
    (present_all [idle_snapshot "Fighting" (Some "Parry!"); idle_snapshot "Fighting" None]
       blank_hud_state).
Proof.
  apply (hit_notification_invariant
           [idle_snapshot "Fighting" (Some "Parry!"); idle_snapshot "Fighting" None]
           blank_hud_state); reflexivity.
Defined.

Lemma quiet_not_new (snap : Snapshot) (h : HudState) :
  truthy (last_hit_info snap) = false \/ last_hit_info snap = lastHitInfo h ->
  hit_is_new snap h = false.
Proof.
  intros [Hf | He]; unfold hit_is_new.
  - rewrite Hf. reflexivity.
  - rewrite bool_decide_eq_true_2 by exact He. apply andb_false_r.
Qed.

Lemma present_all_quiet (snaps : list Snapshot) :
  forall h : HudState,
    0 <= hitInfoTimer h ->
    Forall (fun s => truthy (last_hit_info s) = false \/
                     last_hit_info s = lastHitInfo h) snaps ->
    lastHitInfo (present_all snaps h) = lastHitInfo h /\
    hitInfo_textContent (el (present_all snaps h)) = hitInfo_textContent (el h) /\
    hitInfoTimer (present_all snaps h)
      = Z.max 0 (hitInfoTimer h - Z.of_nat (length snaps)) /\
    hitInfo_opacity (el (present_all snaps h)) =
      if (0 <? hitInfoTimer h) && (hitInfoTimer h <=? Z.of_nat (length snaps)) then "0"
      else hitInfo_opacity (el h).
Proof.
  induction snaps as [| s rest IH]; intros h Ht Hall.
  - unfold present_all. cbn [foldl length]. change (Z.of_nat 0) with 0.
    split; [reflexivity |]. split; [reflexivity |]. split; [lia |].
    destruct (Z.ltb_spec 0 (hitInfoTimer h)); cbn [andb]; [| reflexivity].
    destruct (Z.leb_spec (hitInfoTimer h) 0); [lia | reflexivity].
  - apply Forall_cons in Hall as [Hs Hrest].
    pose proof (quiet_not_new s h Hs) as Hq.
    pose proof (updateHUD_hit s h) as Hu.
    destruct (hit_info_cases s h) as [(Hnew & _) | (_ & E)]; [congruence |].
    rewrite E in Hu. injection Hu as Hl1 Ht1 Hx1 Ho1.
    assert (Ht1' : hitInfoTimer (updateHUD s h) = Z.max 0 (hitInfoTimer h - 1)).
    { rewrite Ht1. destruct (Z.ltb_spec 0 (hitInfoTimer h)); lia. }
    change (present_all (s :: rest) h) with (present_all rest (updateHUD s h)).
    destruct (IH (updateHUD s h)) as (I1 & I2 & I3 & I4).
    { lia. }
    { rewrite Hl1. exact Hrest. }
    rewrite length_cons, Nat2Z.inj_succ.
    split; [congruence |]. split; [congruence |]. split; [lia |].
    rewrite I4, Ho1, Ht1'.
    set (t := hitInfoTimer h) in *. set (k := Z.of_nat (length rest)) in *.
    destruct (Z.ltb_spec 0 (Z.max 0 (t - 1))); destruct (Z.leb_spec (Z.max 0 (t - 1)) k);
      destruct (Z.ltb_spec 0 t); destruct (Z.leb_spec t (Z.succ k));
      destruct (Z.eqb_spec t 1); cbn [andb]; first [ reflexivity | lia ].
Qed.

(** X6. A snapshot whose hit description is absent, is the empty string,
    or equals the retained one never starts the notification and never
    clears it: over any run of such snapshots the retained description and
    the displayed text stay, and the countdown only runs down, by one per
    call, to 0.  So once a description has been shown, the same
    description arriving again is silent, even after a gap and after the
    notification has faded; only a different description shows again. *)
Theorem quiet_snapshots_never_retrigger (snaps : list Snapshot) (h : HudState) :
  0 <= hitInfoTimer h ->
  Forall (fun s => truthy (last_hit_info s) = false \/
                   last_hit_info s = lastHitInfo h) snaps ->
  lastHitInfo (present_all snaps h) = lastHitInfo h /\
  hitInfo_textContent (el (present_all snaps h)) = hitInfo_textContent (el h) /\
  hitInfoTimer (present_all snaps h) = Z.max 0 (hitInfoTimer h - Z.of_nat (length snaps)) /\
  (hitInfoTimer h = 0 ->
     hitInfo_opacity (el (present_all snaps h)) = hitInfo_opacity (el h)) /\
  (forall s, last_hit_info s = lastHitInfo h ->
     hit_is_new s (present_all snaps h) = false).
Proof.
  intros Ht Hall.
  destruct (present_all_quiet snaps h Ht Hall) as (A & B & C & D).
  split; [exact A |]. split; [exact B |]. split; [exact C |]. split.
  - intros H0. rewrite D, H0. reflexivity.
  - intros s Hs. apply quiet_not_new. right. rewrite A. exact Hs.
Qed.

Lemma quiet_snapshots_never_retrigger_witness :
  hitInfoTimer
    (present_all [idle_snapshot "Fighting" None;
                  idle_snapshot "Fighting" (Some EmptyString);
                  idle_snapshot "Fighting" (Some "Parry!")]
       (updateHUD (idle_snapshot "Fighting" (Some "Parry!")) blank_hud_state))
  = 116.
Proof.
  apply (quiet_snapshots_never_retrigger
           [idle_snapshot "Fighting" None;
            idle_snapshot "Fighting" (Some EmptyString);
            idle_snapshot "Fighting" (Some "Parry!")]
           (updateHUD (idle_snapshot "Fighting" (Some "Parry!")) blank_hud_state)).
  - vm_compute. discriminate.
  - constructor; [left; reflexivity |]. constructor; [left; reflexivity |].
    constructor; [right; reflexivity |]. constructor.
Defined.

End HitFacts.

(** ** Sessions: keys, frames and the engine *)

Section SessionFacts.

Context {Game : Type} `{!Engine Game}.

Local Open Scope Q_scope.

Lemma keys_follow_events_aux (code : string) (cbs : list Callback) :
  forall w : World Game,
    Input.pressed (keys (run cbs w)) code
    = last_key_event code cbs (Input.pressed (keys w) code).
Proof.
  induction cbs as [| cb cbs IH]; intros w; [reflexivity |].
  rewrite run_cons, IH. destruct cb; cbn [dispatch with_keys keys last_key_event].
  - rewrite pressed_keydown. destruct (bool_decide (code0 = code)); reflexivity.
  - rewrite pressed_keyup. destruct (bool_decide (code0 = code)); reflexivity.
  - destruct (loop_fields now w) as (_ & _ & _ & _ & _ & -> & _). reflexivity.
Qed.

(** X7. However key events and frames interleave in a session, the state
    the table holds for a key afterwards is that of the last event for
    that key (down for a keydown, up for a keyup), or the state it had
    before when no event named it: frames never change the table, a
    repeated keydown changes nothing, and events for one key never touch
    another.  So the flag the engine is given for an action at the next
    tick is the last event of the key bound to it. *)
Theorem keys_follow_events (cbs : list Callback) (w : World Game) :
  (forall code,
     Input.pressed (keys (run cbs w)) code
     = last_key_event code cbs (Input.pressed (keys w) code)) /\
  (forall p a,
     Z.testbit (Input.readInputs (keys (run cbs w))) (Input.bit_of p a)
     = last_key_event (Input.key_of p a) cbs
         (Input.pressed (keys w) (Input.key_of p a))) /\
  (forall now, keys (loop now w) = keys w).
Proof.
  split; [| split].
  - intros code. apply keys_follow_events_aux.
  - intros p a. rewrite readInputs_bit. apply keys_follow_events_aux.
  - intros now. apply (loop_fields now w).
Qed.

(** X8. A key that was up, pressed and released again between two frames,
    leaves no mark: the frame that follows makes the same calls with the
    same packed inputs, and ends with the same engine state, snapshot,
    accumulator, meshes and HUD, as if the key had not been touched. *)
Theorem tap_between_frames_is_dropped (w : World Game) (code : string) (now : Q) :
  Input.pressed (keys w) code = false ->
  let tapped := run [OnKeyDown code; OnKeyUp code] w in
  trace (loop now tapped) = trace (loop now w) /\
  game (loop now tapped) = game (loop now w) /\
  latestSnap (loop now tapped) = latestSnap (loop now w) /\
  accumulator (loop now tapped) == accumulator (loop now w) /\
  p1Mesh (loop now tapped) = p1Mesh (loop now w) /\
  p2Mesh (loop now tapped) = p2Mesh (loop now w) /\
  hud (loop now tapped) = hud (loop now w).
Proof.
  intros Hup tapped.
  assert (Hbits : Input.readInputs (keys tapped) = Input.readInputs (keys w)).
  { apply readInputs_ext. intros p a. subst tapped.
    cbn [run foldl dispatch with_keys keys].
    rewrite pressed_keyup, pressed_keydown.
    destruct (decide (code = Input.key_of p a)) as [<- | N].
    - rewrite bool_decide_eq_true_2 by reflexivity. rewrite Hup. reflexivity.
    - rewrite bool_decide_eq_false_2 by exact N. reflexivity. }
  destruct (loop_fields now tapped) as (A1 & _ & _ & T1 & E1 & _ & _ & P1 & Q1 & U1).
  destruct (loop_fields now w) as (A2 & _ & _ & T2 & E2 & _ & _ & P2 & Q2 & U2).
  rewrite Hbits in T1, E1.
  change (accumulator tapped) with (accumulator w) in *.
  change (lastTime tapped) with (lastTime w) in *.
  change (trace tapped) with (trace w) in *.
  change (game tapped) with (game w) in *.
  change (latestSnap tapped) with (latestSnap w) in *.
  change (p1Mesh tapped) with (p1Mesh w) in *.
  change (p2Mesh tapped) with (p2Mesh w) in *.
  change (hud tapped) with (hud w) in *.
  assert (ES : game (loop now tapped) = game (loop now w) /\
               latestSnap (loop now tapped) = latestSnap (loop now w)).
  { rewrite <- E2 in E1. split; [exact (f_equal fst E1) | exact (f_equal snd E1)]. }
  destruct ES as [EG EL].
  split; [rewrite T1, T2; reflexivity |]. split; [exact EG |]. split; [exact EL |].
  split; [rewrite A1, A2; reflexivity |].
  split; [rewrite P1, P2, EL; reflexivity |].
  split; [rewrite Q1, Q2, EL; reflexivity |].
  rewrite U1, U2, EL. reflexivity.
Qed.

Lemma updateFighterMesh_same_id (m m' : Mesh) (f : Fighter) :
  mesh_id m = mesh_id m' -> updateFighterMesh m f = updateFighterMesh m' f.
Proof. intros E. unfold updateFighterMesh. rewrite E. reflexivity. Qed.

Lemma run_mesh_ids (cbs : list Callback) :
  forall w : World Game,
    mesh_id (p1Mesh (run cbs w)) = mesh_id (p1Mesh w) /\
    mesh_id (p2Mesh (run cbs w)) = mesh_id (p2Mesh w).
Proof.
  induction cbs as [| cb cbs IH]; intros w; [split; reflexivity |].
  rewrite run_cons. destruct (IH (dispatch cb w)) as [-> ->].
  destruct cb; cbn [dispatch with_keys p1Mesh p2Mesh]; try (split; reflexivity).
  destruct (loop_fields now w) as (_ & _ & _ & _ & _ & _ & _ & -> & -> & _).
  split; reflexivity.
Qed.

(** X9. After any session that ends with a frame, each mesh shows the
    fighter of its own slot in the latest snapshot and nothing else: mesh
    1 is what [updateFighterMesh] makes of fighters[0] and mesh 2 of
    fighters[1], starting from the meshes as they were created, so its
    position is that fighter's position, it is unrotated exactly when the
    fighter faces "Right", and no colour or squash of an earlier frame is
    left over. *)
Theorem meshes_show_latest_snapshot (cbs : list Callback) (now : Q) (w : World Game) :
  let w' := run (cbs ++ [OnFrame now]) w in
  let f1 := fst (fighters (latestSnap w')) in
  let f2 := snd (fighters (latestSnap w')) in
  p1Mesh w' = updateFighterMesh (p1Mesh w) f1 /\
  p2Mesh w' = updateFighterMesh (p2Mesh w) f2 /\
  mesh_position (p1Mesh w') = position f1 /\
  mesh_position (p2Mesh w') = position f2 /\
  (rotation_y (p1Mesh w') = RotZero <-> facing f1 = "Right") /\
  (rotation_y (p2Mesh w') = RotZero <-> facing f2 = "Right").
Proof.
  cbv zeta. rewrite run_snoc. cbn [dispatch].
  destruct (loop_fields now (run cbs w)) as (_ & _ & _ & _ & _ & _ & _ & P1 & P2 & _).
  destruct (run_mesh_ids cbs w) as [I1 I2].
  cbn [fighter_at] in P1, P2.
  rewrite (updateFighterMesh_same_id _ (p1Mesh w) _ I1) in P1.
  rewrite (updateFighterMesh_same_id _ (p2Mesh w) _ I2) in P2.
  split; [exact P1 |]. split; [exact P2 |].
  rewrite P1, P2. unfold updateFighterMesh; cbn [mesh_position rotation_y].
  split; [destruct (position _); reflexivity |].
  split; [destruct (position _); reflexivity |].
  split; case_bool_decide; split; intros; first [ assumption | reflexivity | discriminate | contradiction ].
Qed.







Lemma run_calls_grow (cbs : list Callback) :
  forall w : World Game,
    exists n : nat,
      engine_calls (trace (run cbs w)) = (engine_calls (trace w) + n)%nat /\
      input_samples (trace (run cbs w)) = (input_samples (trace w) + n)%nat.
Proof.
  induction cbs as [| cb cbs IH]; intros w.
  - exists O. cbn [run foldl]. split; lia.
  - rewrite run_cons. destruct (IH (dispatch cb w)) as (n & Hc & Hs).
    destruct cb; cbn [dispatch with_keys trace] in *.
    + exists n. split; assumption.
    + exists n. split; assumption.
    + destruct (loop_calls now w) as [Lc Ls].
      exists (full_periods (accumulator w + Qmin (now - lastTime w) 100) + n)%nat.
      rewrite Hc, Hs, Lc, Ls. split; lia.
Qed.




Lemma raf_requests_app (a b : list Event) :
  raf_requests (a ++ b) = (raf_requests a + raf_requests b)%nat.
Proof.
  induction a as [| e a IH]; [reflexivity |].
  destruct e; cbn [app raf_requests]; rewrite IH; reflexivity.
Qed.

Lemma renders_app (a b : list Event) :
  renders (a ++ b) = (renders a + renders b)%nat.
Proof.
  induction a as [| e a IH]; [reflexivity |].
  destruct e; cbn [app renders]; rewrite IH; reflexivity.
Qed.

Lemma tick_events_plain (bits : Z) (n : nat) :
  raf_requests (tick_events bits n) = O /\ renders (tick_events bits n) = O.
Proof. induction n as [| n [IH1 IH2]]; split; cbn; assumption || reflexivity. Qed.

Lemma replay_app (a b : list Event) (gs : Game * Snapshot) :
  replay (a ++ b) gs = replay b (replay a gs).
Proof. unfold replay. apply foldl_app. Qed.

Lemma replay_tick_events (bits : Z) (n : nat) :
  forall gs : Game * Snapshot, replay (tick_events bits n) gs = engine_after n bits gs.
Proof.
  induction n as [| n IH]; intros gs; [reflexivity |].
  rewrite engine_after_S, <- IH. reflexivity.
Qed.

Lemma run_trace_grows (cbs : list Callback) :
  forall w : World Game,
    exists ev : list Event,
      trace (run cbs w) = (trace w ++ ev)%list /\
      replay ev (game w, latestSnap w) = (game (run cbs w), latestSnap (run cbs w)) /\
      raf_requests ev = frames_in cbs /\ renders ev = frames_in cbs.
Proof.
  induction cbs as [| cb cbs IH]; intros w.
  - exists []. cbn [run foldl frames_in]. rewrite app_nil_r. repeat split; reflexivity.
  - rewrite run_cons. destruct (IH (dispatch cb w)) as (ev & Ht & Hr & Hq & Hn).
    destruct cb; cbn [dispatch with_keys trace game latestSnap frames_in] in *.
    + exists ev. repeat split; assumption.
    + exists ev. repeat split; assumption.
    + destruct (loop_fields now w) as (_ & _ & _ & T & E & _).
      set (n := full_periods (accumulator w + Qmin (now - lastTime w) 100)) in *.
      set (bits := Input.readInputs (keys w)) in *.
      exists ((EvRequestAnimationFrame :: tick_events bits n ++ [EvRender]) ++ ev)%list.
      split; [rewrite Ht, T, <- app_assoc; reflexivity |].
      split; [| split].
      * rewrite replay_app.
        change (replay (EvRequestAnimationFrame :: tick_events bits n ++ [EvRender])
                  (game w, latestSnap w))
          with (replay (tick_events bits n ++ [EvRender]) (game w, latestSnap w)).
        rewrite replay_app, replay_tick_events, <- E. exact Hr.
      * rewrite raf_requests_app. cbn [raf_requests]. rewrite raf_requests_app.
        destruct (tick_events_plain bits n) as [-> _]. cbn [raf_requests]. lia.
      * rewrite renders_app. cbn [renders]. rewrite renders_app.
        destruct (tick_events_plain bits n) as [_ ->]. cbn [renders]. lia.
Qed.

(** X13. In every session the loop asks for the next animation frame
    exactly once per frame and renders exactly once per frame, so frames
    neither multiply nor stop; key events cause no call at all; and every
    engine tick of the session has exactly one input sample. *)
Theorem one_request_and_one_render_per_frame (cbs : list Callback) (w : World Game) :
  raf_requests (trace (run cbs w)) = (raf_requests (trace w) + frames_in cbs)%nat /\
  renders (trace (run cbs w)) = (renders (trace w) + frames_in cbs)%nat /\
  (frames_in cbs = O -> trace (run cbs w) = trace w) /\
  (input_samples (trace (run cbs w)) + engine_calls (trace w)
   = engine_calls (trace (run cbs w)) + input_samples (trace w))%nat.
Proof.
  destruct (run_trace_grows cbs w) as (ev & Ht & _ & Hq & Hn).
  destruct (run_calls_grow cbs w) as (n & Hc & Hs).
  split; [rewrite Ht, raf_requests_app, Hq; reflexivity |].
  split; [rewrite Ht, renders_app, Hn; reflexivity |].
  split; [| lia].
  clear. revert w. induction cbs as [| cb cbs IH]; intros w H0; [reflexivity |].
  rewrite run_cons. destruct cb; cbn [frames_in] in H0; try discriminate H0.
  - rewrite IH by exact H0. reflexivity.
  - rewrite IH by exact H0. reflexivity.
Qed.

(** X14. The engine's state is a function of the packed inputs it was
    ticked with: a session only ever appends to the trace, and feeding the
    engine as it was before the session the inputs the trace logged
    during the session, in order, gives the engine state and the snapshot
    the session ends with. *)
Theorem session_replays_from_trace (cbs : list Callback) (w : World Game) :
  take (length (trace w)) (trace (run cbs w)) = trace w /\
  replay (drop (length (trace w)) (trace (run cbs w))) (game w, latestSnap w)
  = (game (run cbs w), latestSnap (run cbs w)).
Proof.
  destruct (run_trace_grows cbs w) as (ev & Ht & Hr & _).
  rewrite Ht. split.
  - apply take_app_length.
  - rewrite drop_app_length. exact Hr.
Qed.

End SessionFacts.

(** ** What the HUD shows *)

Section HudShowFacts.

Local Open Scope Q_scope.

Lemma updateHUD_panels (snap : Snapshot) (h : HudState) :
  let f1 := fst (fighters snap) in
  let f2 := snd (fighters snap) in
  let e := el (updateHUD snap h) in
  p1Name_textContent e = "P1 " +:+ fighter_id f1 +:+ " (" +:+ weapon_type f1 +:+ ")" /\
  p2Name_textContent e = "P2 " +:+ fighter_id f2 +:+ " (" +:+ weapon_type f2 +:+ ")" /\
  p1Health_width e = health_pct f1 * 100 /\
  p2Health_width e = health_pct f2 * 100 /\
  p1Stamina_width e = stamina_pct f1 * 100 /\
  p2Stamina_width e = stamina_pct f2 * 100 /\
  p1Wins_textContent e = js_repeat "★" (round_wins f1) /\
  p2Wins_textContent e = js_repeat "★" (round_wins f2) /\
  round_textContent e = "Round " +:+ pretty (current_round snap) /\
  timer_number e = round_timer snap.
Proof.
  cbv zeta. unfold updateHUD.
  destruct (phase_overlay snap (el h)) as [pt pd].
  destruct (hit_info snap h) as [[[l t] ht] ho].
  repeat split; reflexivity.
Qed.

(** X15. Apart from the hit notification, nothing on the HUD is carried
    over from an earlier frame where it can be seen: the labels, bars,
    win marks, round, timer and bar styles, and whether the phase overlay
    is shown, are the same whatever the HUD held before; and whenever the
    overlay is shown its text is too, so the text that a hidden overlay
    keeps from an earlier phase is never visible. *)
Theorem hud_shows_only_the_current_snapshot (snap : Snapshot) (h h' : HudState) :
  let e := el (updateHUD snap h) in
  let e' := el (updateHUD snap h') in
  (p1Name_textContent e = p1Name_textContent e' /\
   p2Name_textContent e = p2Name_textContent e' /\
   p1Health_width e = p1Health_width e' /\
   p2Health_width e = p2Health_width e' /\
   p1Stamina_width e = p1Stamina_width e' /\
   p2Stamina_width e = p2Stamina_width e' /\
   p1Wins_textContent e = p1Wins_textContent e' /\
   p2Wins_textContent e = p2Wins_textContent e' /\
   round_textContent e = round_textContent e' /\
   timer_number e = timer_number e') /\
  (p1Health_background e = p1Health_background e' /\
   p2Health_background e = p2Health_background e') /\
  phase_display e = phase_display e' /\
  (phase_display e = "block" -> phase_textContent e = phase_textContent e').
Proof.
  cbv zeta.
  pose proof (updateHUD_panels snap h) as P. pose proof (updateHUD_panels snap h') as P'.
  cbv zeta in P, P'.
  destruct P as (A1 & A2 & A3 & A4 & A5 & A6 & A7 & A8 & A9 & A10).
  destruct P' as (B1 & B2 & B3 & B4 & B5 & B6 & B7 & B8 & B9 & B10).
  split; [repeat split; congruence |].
  destruct (updateHUD_backgrounds snap h) as [C1 C2].
  destruct (updateHUD_backgrounds snap h') as [D1 D2].
  split; [split; congruence |].
  pose proof (updateHUD_overlay snap h) as O. pose proof (updateHUD_overlay snap h') as O'.
  unfold phase_overlay in O, O'.
  repeat case_bool_decide;
    pose proof (f_equal fst O) as T; pose proof (f_equal snd O) as D;
    pose proof (f_equal fst O') as T'; pose proof (f_equal snd O') as D';
    cbn [fst snd] in T, D, T', D'; rewrite T, D, T', D';
    (split; [reflexivity | intros Hb; first [ reflexivity | discriminate Hb ]]).
Qed.

Lemma hud_shows_only_the_current_snapshot_witness :
  phase_textContent
    (el (updateHUD (idle_snapshot "RoundOver" None)
           (updateHUD (snapshot_in "Countdown" (fighter_in "Kael" "Idle" None 1)
                         (fighter_in "Knight" "Idle" None 1) (Some "3") None None)
              blank_hud_state)))
  = phase_textContent (el (updateHUD (idle_snapshot "RoundOver" None) blank_hud_state)).
Proof.
  apply (hud_shows_only_the_current_snapshot (idle_snapshot "RoundOver" None)
           (updateHUD (snapshot_in "Countdown" (fighter_in "Kael" "Idle" None 1)
                         (fighter_in "Knight" "Idle" None 1) (Some "3") None None)
              blank_hud_state)
           blank_hud_state).
  reflexivity.
Defined.


End HudShowFacts.

(** ** What the engine is handed *)

Section EngineInputFacts.

Context {Game : Type} `{!Engine Game}.

Lemma tick_events_packed_ok (bits : Z) (n : nat) :
  (0 <= bits < 2 ^ 18)%Z -> Forall packed_ok (tick_events bits n).
Proof.
  intros Hb. induction n as [| n IH]; cbn [tick_events]; [constructor |].
  constructor; [exact Hb |]. constructor; [exact Hb | exact IH].
Qed.

(** X17. Every word the loop reads from the keyboard and every word it
    hands to [game.tick_packed], in any session, is a non-negative number
    below [2 ^ 18]: the engine never receives a negative number or a bit
    outside the eighteen flags, whatever keys were pressed. *)
Theorem engine_inputs_are_18_bit (cbs : list Callback) (w : World Game) :
  Forall packed_ok (trace w) -> Forall packed_ok (trace (run cbs w)).
Proof.
  revert w. induction cbs as [| cb cbs IH]; intros w Hw; [exact Hw |].
  rewrite run_cons. apply IH.
  destruct cb; cbn [dispatch with_keys trace]; [exact Hw | exact Hw |].
  destruct (loop_fields now w) as (_ & _ & _ & -> & _).
  apply Forall_app. split; [exact Hw |].
  constructor; [exact I |].
  apply Forall_app. split.
  - apply tick_events_packed_ok. apply readInputs_range.
  - constructor; [exact I | constructor].
Qed.

End EngineInputFacts.

(** ** Sessions on the stub engine *)

Lemma tap_between_frames_is_dropped_witness :
  trace (loop 40 (run [OnKeyDown "KeyJ"; OnKeyUp "KeyJ"] stub_world))
  = trace (loop 40 stub_world) /\
  game (loop 40 (run [OnKeyDown "KeyJ"; OnKeyUp "KeyJ"] stub_world))
  = game (loop 40 stub_world).
Proof.
  destruct (tap_between_frames_is_dropped stub_world "KeyJ" 40) as (Ht & Hg & _).
  - reflexivity.
  - split; [exact Ht | exact Hg].
Defined.




Lemma one_request_and_one_render_per_frame_witness :
  trace (run [OnKeyDown "KeyD"; OnKeyUp "KeyD"; OnKeyDown "Space"] stub_world)
  = trace stub_world.
Proof.
  apply (one_request_and_one_render_per_frame
           [OnKeyDown "KeyD"; OnKeyUp "KeyD"; OnKeyDown "Space"] stub_world).
  reflexivity.
Defined.

Lemma engine_inputs_are_18_bit_witness :
  Forall packed_ok
    (trace (run [OnKeyDown "NumpadEnter"; OnFrame 50; OnKeyUp "NumpadEnter"; OnFrame 70]
              stub_world)).
Proof.
  apply (engine_inputs_are_18_bit
           [OnKeyDown "NumpadEnter"; OnFrame 50; OnKeyUp "NumpadEnter"; OnFrame 70]
           stub_world).
  constructor.
Defined.
